(** * MSCitemsCleaner: a shallow embedding of [src/main.rs]

    The program reads [items.txt], a flat sequence of tagged records,
    drops the items lying at the landfill position, renumbers the
    remaining items of each item group and writes the records back.

    Modelling conventions.
    - A byte is a [Z] in [0, 255]; a [Vec<u8>] is a [list Z].
    - A Rust [String] is modelled by its UTF-8 bytes (what [as_bytes]
      returns), so [len], [starts_with], [ends_with], [==] and [replace]
      act on a [list Z].  Pushing a byte [b] [as char] appends the UTF-8
      encoding of the code point [b].
    - Indexing out of bounds, and [u32] subtraction below zero, panic.
      Arithmetic is modelled with overflow checks, as in the default
      (debug) profile that the crate's [cfg(debug_assertions)] items target.
    - [exit] (print a message, end the process) is an error value that
      carries the byte offset it reports. *)

From Stdlib Require Import String Ascii ZArith List Lia Bool.
Import ListNotations.

(** ** Failures and the error monad *)

Inductive failure : Type :=
| InvalidHeader (pos : nat)      (* exit "Invalid header symbol at position .." *)
| InvalidFooter (pos : nat)      (* exit "Invalid footer symbol at position .." *)
| IndexOutOfBounds               (* panic: index out of bounds *)
| SubtractOverflow.              (* panic: attempt to subtract with overflow *)

Definition Rs (A : Type) : Type := (A + failure)%type.

Definition bind {A B : Type} (m : Rs A) (k : A -> Rs B) : Rs B :=
  match m with
  | inl a => k a
  | inr f => inr f
  end.

Notation "x <- m ;; k" := (bind m (fun x => k))
  (at level 61, m at next level, right associativity).

(** A monadic left fold: a Rust [for] loop whose body can panic. *)
Fixpoint mfold {A B : Type} (f : A -> B -> Rs A) (l : list B) (a : A) : Rs A :=
  match l with
  | [] => inl a
  | b :: l' => a' <- f a b ;; mfold f l' a'
  end.

(** [buf[i]] *)
Definition at_ (buf : list Z) (i : nat) : Rs Z :=
  match nth_error buf i with
  | Some b => inl b
  | None => inr IndexOutOfBounds
  end.

Open Scope Z_scope.

(** ** Strings *)

(** ASCII text of a literal, as the bytes of a Rust [&str]. *)
Fixpoint str (s : string) : list Z :=
  match s with
  | EmptyString => []
  | String c s' => Z.of_nat (nat_of_ascii c) :: str s'
  end.

Fixpoint list_eqb (a b : list Z) : bool :=
  match a, b with
  | [], [] => true
  | x :: a', y :: b' => (x =? y) && list_eqb a' b'
  | _, _ => false
  end.

(** [s.starts_with(p)] *)
Fixpoint starts_with (s p : list Z) : bool :=
  match p, s with
  | [], _ => true
  | y :: p', x :: s' => (x =? y) && starts_with s' p'
  | _ :: _, [] => false
  end.

(** [s.ends_with(p)] *)
Definition ends_with (s p : list Z) : bool := starts_with (rev s) (rev p).

(** [v.contains(&x)] on a vector of strings *)
Definition contains (v : list (list Z)) (x : list Z) : bool :=
  existsb (fun y => list_eqb y x) v.

(** ['0' <= c <= '9'] *)
Definition is_digit (c : Z) : bool := (48 <=? c) && (c <=? 57).

(** [b as char], pushed to a [String]: the UTF-8 encoding of the code
    point [b] (below 256, so one or two bytes). *)
Definition char_bytes (b : Z) : list Z :=
  if b <? 128 then [b]
  else [Z.lor 192 (Z.shiftr b 6); Z.lor 128 (Z.land b 63)].

(** [format!("{}", n)] for an unsigned [n]. *)
Fixpoint dec_aux (fuel n : nat) (acc : list Z) : list Z :=
  match fuel with
  | O => acc
  | S f =>
      let acc' := 48 + Z.of_nat (Nat.modulo n 10) :: acc in
      if Nat.ltb n 10 then acc' else dec_aux f (Nat.div n 10) acc'
  end.

Definition decimal (n : nat) : list Z := dec_aux (S n) n [].

(** ** Record codec *)

(** [struct Entry { tag: String, data: Vec<u8> }] *)
Record Entry : Type := mkEntry { tag : list Z; data : list Z }.

(** [get_u32_le] *)
Definition get_u32_le (buf : list Z) (idx : nat) : Rs (Z * nat) :=
  b0 <- at_ buf idx ;;
  b1 <- at_ buf (idx + 1) ;;
  b2 <- at_ buf (idx + 2) ;;
  b3 <- at_ buf (idx + 3) ;;
  inl (Z.lor (Z.lor (Z.lor (Z.shiftl b0 0) (Z.shiftl b1 8)) (Z.shiftl b2 16))
             (Z.shiftl b3 24), (idx + 4)%nat).

(** [mk_u32_le] *)
Definition mk_u32_le (n : Z) : list Z :=
  [Z.land (Z.shiftr n 0) 255; Z.land (Z.shiftr n 8) 255;
   Z.land (Z.shiftr n 16) 255; Z.land (Z.shiftr n 24) 255].

(** The [while i < len] loop of [get_string], from position [pos] on. *)
Fixpoint get_chars (buf : list Z) (pos k : nat) : Rs (list Z) :=
  match k with
  | O => inl []
  | S k' =>
      b <- at_ buf pos ;;
      rest <- get_chars buf (S pos) k' ;;
      inl (char_bytes b ++ rest)
  end.

(** [get_string]: the string read and the advanced index. *)
Definition get_string (buf : list Z) (idx len : nat) : Rs (list Z * nat) :=
  s <- get_chars buf idx len ;;
  inl (s, (idx + len)%nat).

(** [for j in 0..k { data.push(buf[pos + j]) }] *)
Fixpoint read_bytes (buf : list Z) (pos k : nat) : Rs (list Z) :=
  match k with
  | O => inl []
  | S k' =>
      b <- at_ buf pos ;;
      rest <- read_bytes buf (S pos) k' ;;
      inl (b :: rest)
  end.

(** [x - 1] on a [u32], with overflow checks. *)
Definition u32_pred (x : Z) : Rs Z :=
  if x =? 0 then inr SubtractOverflow else inl (x - 1).

(** One iteration of the [while] loop of [generate_entries], at index [i]
    (with [i < buf.len()]): the entry read and the index after it. *)
Definition read_entry (buf : list Z) (i : nat) : Rs (Entry * nat) :=
  h <- at_ buf i ;;
  if negb (h =? 0x7E) then inr (InvalidHeader i) else
  let i := S i in
  tag_length <- at_ buf i ;;
  let i := S i in
  r <- get_string buf i (Z.to_nat tag_length) ;;
  let (tg, i) := r in
  r <- get_u32_le buf i ;;
  let (data_length, i) := r in
  k <- u32_pred data_length ;;
  dt <- read_bytes buf i (Z.to_nat k) ;;
  let i := (i + Z.to_nat k)%nat in
  f <- at_ buf i ;;
  if negb (f =? 0x7B) then inr (InvalidFooter i) else
  inl (mkEntry tg dt, S i).

(** The [while i < file_contents.len()] loop.  Every iteration that
    does not fail consumes at least seven bytes, so [length buf + 1]
    rounds of fuel are never exhausted. *)
Fixpoint entries_loop (fuel : nat) (buf : list Z) (i : nat) : Rs (list Entry) :=
  match fuel with
  | O => inl []
  | S f =>
      if Nat.ltb i (length buf) then
        r <- read_entry buf i ;;
        let (e, i') := r in
        rest <- entries_loop f buf i' ;;
        inl (e :: rest)
      else inl []
  end.

(** [generate_entries] *)
Definition generate_entries (buf : list Z) : Rs (list Entry) :=
  entries_loop (S (length buf)) buf 0.

(** The bytes [save_new_items_file] writes for one entry: header, the tag
    length [as u8], the tag bytes, [mk_u32_le(data.len() + 1)], the data
    and the footer. *)
Definition encode_entry (e : Entry) : list Z :=
  [0x7E; Z.of_nat (length (tag e)) mod 256] ++ tag e
  ++ mk_u32_le (Z.of_nat (length (data e)) + 1) ++ data e ++ [0x7B].

(** The contents of the file [save_new_items_file] writes. *)
Definition save_new_items_file (es : list Entry) : list Z :=
  flat_map encode_entry es.

(** ** Landfill classifier *)

(** [landfill_pos] *)
Definition landfill_pos : list Z :=
  [0xFA; 0xD4; 0x29; 0xC4; 0xB8; 0x4F; 0x92; 0x40; 0xEF; 0xD2; 0x35; 0xC4].

(** [is_in_landfill]: [same &= data[i] == landfill_pos[i-6]] for [i] in
    [6..18]; the indices are in bounds once [data.len() >= 18]. *)
Definition is_in_landfill (e : Entry) : bool :=
  if Nat.ltb (length (data e)) 18 then false
  else fold_left (fun same i => same && (nth i (data e) 0 =? nth (i - 6) landfill_pos 0))
                 (seq 6 12) true.

(** ** Tag grammar *)

(** The loop of [get_item_id] over [tag_array[i..]], [numbers_count]
    digits seen so far; [spray] is [tag.starts_with("spraycan")]. *)
Fixpoint item_id_loop (tg : list Z) (spray : bool) (rest : list Z)
    (i numbers_count : nat) : list Z :=
  match rest with
  | [] => tg
  | c :: rest' =>
      if Nat.eqb numbers_count 0 then
        if is_digit c then item_id_loop tg spray rest' (S i) 1
        else item_id_loop tg spray rest' (S i) 0
      else if negb (is_digit c) || (spray && Nat.leb 2 numbers_count) then
        firstn i tg   (* String::from_utf8(tag_array[0..i]): i follows an ASCII digit *)
      else item_id_loop tg spray rest' (S i) (S numbers_count)
  end.

(** [get_item_id] *)
Definition get_item_id (tg : list Z) : list Z :=
  item_id_loop tg (starts_with tg (str "spraycan")) tg 0 0.

(** The scan of [tag_set_new_count]: [(start_num_pos, end_num_pos)],
    where [0] stands for "not set yet". *)
Fixpoint num_pos_scan (rest : list Z) (i start end_ : nat) : nat * nat :=
  match rest with
  | [] => (start, end_)
  | c :: rest' =>
      if is_digit c then
        if Nat.eqb start 0 then num_pos_scan rest' (S i) i end_
        else num_pos_scan rest' (S i) start end_
      else if Nat.ltb 0 start && Nat.eqb end_ 0 then num_pos_scan rest' (S i) start i
      else num_pos_scan rest' (S i) start end_
  end.

(** [tag_set_new_count], on the tag: [format!("{}{}{}", tag[0..start], n,
    tag[end..])]. *)
Definition tag_set_new_count (tg : list Z) (n : nat) : list Z :=
  let (start, end_) := num_pos_scan tg 0 0 0 in
  firstn start tg ++ decimal n ++ skipn end_ tg.

(** A UTF-8 continuation byte ([10xxxxxx]). *)
Definition is_continuation (b : Z) : bool := (128 <=? b) && (b <? 192).

(** [s.replace("", to)]: [to] at every character boundary. *)
Fixpoint replace_empty (s to : list Z) : list Z :=
  match s with
  | [] => to
  | c :: s' =>
      if is_continuation c then c :: replace_empty s' to
      else to ++ c :: replace_empty s' to
  end.

(** [s.replace(from, to)] for a non-empty [from]: the non-overlapping
    occurrences, left to right.  On UTF-8 text a byte-level match of a
    UTF-8 pattern is a character-level match. *)
Fixpoint replace_aux (fuel : nat) (s from to : list Z) : list Z :=
  match fuel with
  | O => s
  | S f =>
      match s with
      | [] => []
      | c :: s' =>
          if starts_with s from then to ++ replace_aux f (skipn (length from) s) from to
          else c :: replace_aux f s' from to
      end
  end.

(** [str::replace] *)
Definition str_replace (s from to : list Z) : list Z :=
  match from with
  | [] => replace_empty s to
  | _ :: _ => replace_aux (length s) s from to
  end.

(** ** Group renumbering engine: [clean_entries] *)

(** [dont_touch_entries] *)
Definition dont_touch_entries : list (list Z) :=
  map str ["milkxTransform"; "milkxCondition"; "sausagesx0"; "pizzaxTransform";
           "pizzaxCondition"; "beercase0"; "macaron boxxTransform";
           "macaron boxxCondition"; "oilfilter0"]%string.

(** [blacklist] *)
Definition blacklist : list (list Z) :=
  map str ["fireextinguisher"; "n2obottle"; "battery"; "oil filter,"; "spark plug";
           "alternator belt"; "light bulb"; "fuse"; "r20 battery"]%string.

(** The condition under which a landfill item's id is collected. *)
Definition landfill_removable (e : Entry) : bool :=
  is_in_landfill e &&
  negb (contains dont_touch_entries (get_item_id (tag e))) &&
  forallb (fun bi => negb (starts_with (tag e) bi)) blacklist.

(** [located_in_landfill] *)
Definition located_in_landfill (es : list Entry) : list (list Z) :=
  fold_left (fun acc e => if landfill_removable e then acc ++ [get_item_id (tag e)] else acc)
            es [].

(** [res] after the second loop: the entries whose item id is not in
    [located_in_landfill]. *)
Definition remove_landfill (es : list Entry) : list Entry :=
  let located := located_in_landfill es in
  filter (fun e => negb (contains located (get_item_id (tag e)))) es.

(** [struct Group] *)
Record Group : Type := mkGroup {
  tagname : list Z;
  tagid : list Z;
  has_default_zero_item : bool;
  count : nat;
  max : nat
}.

Definition grp (n i : string) (z : bool) : Group := mkGroup (str n) (str i) z 0 0.

(** [item_counts] as initialised. *)
Definition item_counts : list Group :=
  [grp "beercase" "BeerCaseID" true; grp "sausagesx" "SausagesxID" true;
   grp "milkx" "milkxID" true; grp "sugar" "sugarID" false;
   grp "yeast" "yeastID" false; grp "potatochips" "potatochipsID" false;
   grp "pizzax" "pizzaxID" true; grp "macaronbox" "macaronboxxID" false;
   grp "shoppingbagx" "shoppingbagxID" false; grp "moosemeatx" "moosemeatxID" false;
   grp "Booze" "BoozeID" false; grp "pikex" "pikexID" false;
   grp "juiceconcentrate" "juiceconcentrateID" false; grp "motoroil" "motoroilID" false;
   grp "brakefluid" "brakefluidID" false; grp "coolant" "coolantID" false;
   grp "twostroke" "twostrokeID" false; grp "cigarettes" "cigarettesID" false;
   grp "spark plug box" "sparkplugboxID" false; grp "groundcoffee" "groundcoffeeID" false;
   grp "grillcharcoal" "grillcharcoalID" false; grp "light bulb box" "lightbulbboxID" false;
   grp "fuse package" "fusepackageID" false; grp "r20 battery box" "r20batteryboxID" false;
   grp "mosquitospray" "mosquitosprayID" false;
   grp "spraycan01" "Spraycan01ID" false; grp "spraycan02" "Spraycan02ID" false;
   grp "spraycan03" "Spraycan03ID" false; grp "spraycan04" "Spraycan04ID" false;
   grp "spraycan05" "Spraycan05ID" false; grp "spraycan06" "Spraycan06ID" false;
   grp "spraycan07" "Spraycan07ID" false; grp "spraycan08" "Spraycan08ID" false;
   grp "spraycan09" "Spraycan09ID" false; grp "spraycan10" "Spraycan10ID" false;
   grp "spraycan11" "Spraycan11ID" false; grp "spraycan12" "Spraycan12ID" false;
   grp "spraycan13" "Spraycan13ID" false]%string.

Definition set_count (g : Group) (c : nat) : Group :=
  mkGroup (tagname g) (tagid g) (has_default_zero_item g) c (max g).

(** The condition of the counting loop. *)
Definition counted_in (g : Group) (e : Entry) : bool :=
  starts_with (tag e) (tagname g) && ends_with (tag e) (str "Transform").

(** One iteration of the counting loop, over all groups. *)
Definition count_entry (gs : list Group) (e : Entry) : list Group :=
  map (fun g => if counted_in g e
                then mkGroup (tagname g) (tagid g) (has_default_zero_item g)
                             (S (count g)) (S (max g))
                else g) gs.

(** The loop "Recude counters by 1 (where possible)". *)
Definition reduce_group (g : Group) : Group :=
  if Nat.leb 1 (count g) then
    if has_default_zero_item g
    then mkGroup (tagname g) (tagid g) (has_default_zero_item g)
                 (count g - 1) (max g - 1)
    else g
  else g.

(** The groups after counting and reducing. *)
Definition counted_groups (res : list Entry) : list Group :=
  map reduce_group (fold_left count_entry res item_counts).

(** [Vec<Map>], [oldid] and [newid]. *)
Definition IdMap : Type := list (list Z * list Z).

(** [map.iter().find(|e| e.oldid == id)] *)
Definition find_old (m : IdMap) (id : list Z) : option (list Z * list Z) :=
  find (fun p => list_eqb (fst p) id) m.

(** The inner [for g in &mut item_counts] loop of the renaming pass, for
    one entry whose tag is [tg]: the groups, the tag and the map after it. *)
Fixpoint rename_groups (gs : list Group) (tg : list Z) (m : IdMap)
    : list Group * list Z * IdMap :=
  match gs with
  | [] => ([], tg, m)
  | g :: gs' =>
      if list_eqb (tagid g) tg then
        let '(gs'', tg', m') := rename_groups gs' tg m in (g :: gs'', tg', m')
      else if starts_with tg (tagname g) then
        let id := get_item_id tg in
        match find_old m id with
        | Some (oldid, newid) =>
            let '(gs'', tg', m') := rename_groups gs' (str_replace tg oldid newid) m in
            (g :: gs'', tg', m')
        | None =>
            let tg1 := tag_set_new_count tg (count g) in
            let g1 := if Nat.ltb 0 (count g) then set_count g (count g - 1) else g in
            let '(gs'', tg', m') := rename_groups gs' tg1 (m ++ [(id, get_item_id tg1)]) in
            (g1 :: gs'', tg', m')
        end
      else
        let '(gs'', tg', m') := rename_groups gs' tg m in (g :: gs'', tg', m')
  end.

(** The entries the renaming pass skips. *)
Definition protected_tag (tg : list Z) : bool :=
  contains dont_touch_entries tg || existsb (fun bi => starts_with tg bi) blacklist.

(** The renaming pass [for e in &mut res]: the renamed entries, the
    groups and the map after it. *)
Fixpoint rename_entries (res : list Entry) (gs : list Group) (m : IdMap)
    : list Entry * list Group :=
  match res with
  | [] => ([], gs)
  | e :: res' =>
      if protected_tag (tag e) then
        let '(out, gs') := rename_entries res' gs m in (e :: out, gs')
      else
        let '(gs1, tg1, m1) := rename_groups gs (tag e) m in
        let '(out, gs') := rename_entries res' gs1 m1 in
        (mkEntry tg1 (data e) :: out, gs')
  end.

(** [e.data[pos] = v] *)
Definition set_at (l : list Z) (pos : nat) (v : Z) : Rs (list Z) :=
  if Nat.ltb pos (length l) then inl (firstn pos l ++ v :: skipn (S pos) l)
  else inr IndexOutOfBounds.

(** [for pos in 5..9 { e.data[pos] = count[pos - 5] }] *)
Definition patch_counter (dt : list Z) (mx : nat) : Rs (list Z) :=
  let cnt := mk_u32_le (Z.of_nat mx) in
  mfold (fun d pos => set_at d pos (nth (pos - 5) cnt 0)) (seq 5 4) dt.

(** The last loop's body for one entry, over all groups. *)
Definition patch_entry (gs : list Group) (e : Entry) : Rs Entry :=
  dt <- mfold (fun d g => if list_eqb (tag e) (tagid g) then patch_counter d (max g) else inl d)
              gs (data e) ;;
  inl (mkEntry (tag e) dt).

Fixpoint mapM {A B : Type} (f : A -> Rs B) (l : list A) : Rs (list B) :=
  match l with
  | [] => inl []
  | a :: l' => b <- f a ;; rest <- mapM f l' ;; inl (b :: rest)
  end.

(** The state just before the final loop: the renamed entries and the groups. *)
Definition clean_state (entries : list Entry) : list Entry * list Group :=
  let res := remove_landfill entries in
  rename_entries res (counted_groups res) [].

(** [clean_entries] *)
Definition clean_entries (entries : list Entry) : Rs (list Entry) :=
  let '(res, gs) := clean_state entries in
  mapM (patch_entry gs) res.

(** A payload whose bytes 6..18 are the landfill position. *)
Definition landfill_payload : list Z := [0; 0; 0; 0; 0; 0] ++ landfill_pos.

(** ** Properties used to state the claims *)

(** Identity-scoped landfill removal as the spec words it: a record is
    dropped when some landfill record, not protected by the allowlist or
    the blocklist, has the same item identity. *)
Definition landfill_dropped (es : list Entry) (e : Entry) : bool :=
  existsb (fun l => landfill_removable l && list_eqb (get_item_id (tag l)) (get_item_id (tag e))) es.

Definition survivors (es : list Entry) : list Entry :=
  filter (fun e => negb (landfill_dropped es e)) es.

(** The group's population: surviving records whose tag starts with the
    group's prefix and ends with "Transform". *)
Definition population (g : Group) (res : list Entry) : nat :=
  length (filter (counted_in g) res).

(** The group maximum: the population, less one for a group with a
    default zero item and a non-zero population. *)
Definition group_max (es : list Entry) (g : Group) : nat :=
  let p := population g (survivors es) in
  if Nat.leb 1 p && has_default_zero_item g then p - 1 else p.

(** The fields of a group that the renaming pass leaves alone. *)
Definition gkey (g : Group) : list Z * list Z * nat := (tagname g, tagid g, max g).

Definition bad_head (c : Z) : bool := (c =? 114) || (c =? 83).   (* 'r', 'S' *)

(** The shape of every tag the renaming pass produces: it holds a digit
    and does not start with 'r' or 'S'. *)
Definition renamed_ok (t : list Z) : bool :=
  existsb is_digit t && match t with [] => false | c :: _ => negb (bad_head c) end.

(** A group prefix that starts with 'r' or 'S' lies under a blocklisted
    prefix. *)
Definition name_ok (n : list Z) : bool :=
  match n with
  | [] => false
  | c :: _ => negb (bad_head c) || existsb (fun b => starts_with n b) blacklist
  end.

Fixpoint nodupb (l : list (list Z)) : bool :=
  match l with
  | [] => true
  | x :: l' => negb (contains l' x) && nodupb l'
  end.

(** How an output record stands to the input record it comes from: the
    payload keeps its length and is either untouched or patched only in
    bytes 5..9 of a counter record; the tag is either kept or renamed from
    one that starts with a group prefix. *)
Definition kept_in_place (e e' : Entry) : Prop :=
  length (data e') = length (data e) /\
  (data e' = data e \/
   (exists g, In g item_counts /\ tag e' = tagid g /\
              firstn 5 (data e') = firstn 5 (data e) /\
              skipn 9 (data e') = skipn 9 (data e))) /\
  (tag e' = tag e \/
   (exists g, In g item_counts /\ starts_with (tag e) (tagname g) = true)).

(** A nine-byte payload. *)
Definition zeros9 : list Z := [0; 0; 0; 0; 0; 0; 0; 0; 0].

(** Two counted pike records and the pike counter record. *)
Definition pike_input : list Entry :=
  [mkEntry (str "pikex5Transform") []; mkEntry (str "pikex9Transform") [1; 2];
   mkEntry (str "pikexID") zeros9].

Definition pike_output : list Entry :=
  [mkEntry (str "pikex2Transform") []; mkEntry (str "pikex1Transform") [1; 2];
   mkEntry (str "pikexID") [0; 0; 0; 0; 0; 2; 0; 0; 0]].

(** One counted sausage record and the sausage counter record. *)
Definition sausage_input : list Entry :=
  [mkEntry (str "sausagesx1Transform") []; mkEntry (str "SausagesxID") zeros9].

Definition sausage_output : list Entry :=
  [mkEntry (str "sausagesx0Transform") []; mkEntry (str "SausagesxID") zeros9].

(** ** The record framing as the spec describes it *)

(** A well-formed record: its tag bytes, the 4 bytes of its length field
    and its payload. *)
Record Frame : Type := mkFrame { ftag : list Z; flen : list Z; fdata : list Z }.

(** The little-endian unsigned value of a 4-byte field. *)
Definition le32_value (w : list Z) : Z :=
  Z.lor (Z.lor (Z.lor (Z.shiftl (nth 0 w 0) 0) (Z.shiftl (nth 1 w 0) 8))
               (Z.shiftl (nth 2 w 0) 16))
        (Z.shiftl (nth 3 w 0) 24).

(** Header, tag length, tag, length field, payload, footer. *)
Definition frame_bytes (f : Frame) : list Z :=
  0x7E :: Z.of_nat (length (ftag f)) :: ftag f ++ flen f ++ fdata f ++ [0x7B].

(** The tag fits its length byte, and the length field holds the payload
    length plus one for the footer. *)
Definition frame_ok (f : Frame) : Prop :=
  (length (ftag f) < 256)%nat /\ length (flen f) = 4%nat /\
  le32_value (flen f) = Z.of_nat (S (length (fdata f))).

(** The record a well-formed frame decodes to. *)
Definition frame_entry (f : Frame) : Entry :=
  mkEntry (flat_map char_bytes (ftag f)) (fdata f).

Definition is_byte (b : Z) : Prop := 0 <= b < 256.

(** The ways the record starting at offset [off] can be malformed, each
    with the failure the decoder reports: a wrong header byte, a buffer
    that ends before the tag length, the tag or the length field, a length
    field of 0, a buffer that ends before the payload and footer, and a
    wrong footer byte. *)
Inductive bad_record (off : nat) : list Z -> failure -> Prop :=
| bad_header (h : Z) (r : list Z) :
    h <> 0x7E -> bad_record off (h :: r) (InvalidHeader off)
| bad_no_tag_length :
    bad_record off [0x7E] IndexOutOfBounds
| bad_short_tag (n : Z) (r : list Z) :
    (length r < Z.to_nat n + 4)%nat ->
    bad_record off (0x7E :: n :: r) IndexOutOfBounds
| bad_zero_length (n : Z) (t w r : list Z) :
    length t = Z.to_nat n -> length w = 4%nat -> le32_value w = 0 ->
    bad_record off (0x7E :: n :: t ++ w ++ r) SubtractOverflow
| bad_short_payload (n : Z) (t w r : list Z) :
    length t = Z.to_nat n -> length w = 4%nat ->
    (length r < Z.to_nat (le32_value w))%nat ->
    bad_record off (0x7E :: n :: t ++ w ++ r) IndexOutOfBounds
| bad_footer (n : Z) (t w d : list Z) (b : Z) (r : list Z) :
    length t = Z.to_nat n -> length w = 4%nat ->
    le32_value w = Z.of_nat (S (length d)) -> b <> 0x7B ->
    bad_record off (0x7E :: n :: t ++ w ++ d ++ b :: r)
               (InvalidFooter (off + 6 + length t + length d)%nat).

(** ** The debug listing *)

(** [counting_tags] of [get_formatted_entries] *)
Definition counting_tags : list (list Z) :=
  map str ["BeerCaseID"; "SausagesxID"; "milkxID"; "sugarID"; "yeastID";
           "potatochipsID"; "pizzaxID"; "macaronboxxID"; "shoppingbagxID";
           "moosemeatxID"; "BoozeID"; "pikexID"; "juiceconcentrateID";
           "motoroilID"; "brakefluidID"; "coolantID"; "twostrokeID";
           "cigarettesID"; "sparkplugboxID"; "groundcoffeeID"; "grillcharcoalID";
           "lightbulbboxID"; "fusepackageID"; "r20batteryboxID"; "mosquitosprayID"]%string.

(** [format!("{} ({})", tag, v)] for a [u32] value [v]. *)
Definition format_counter (tg : list Z) (v : Z) : list Z :=
  tg ++ str " (" ++ decimal (Z.to_nat v) ++ str ")".

(** The loop body of [get_formatted_entries] for one entry. *)
Definition format_entry (e : Entry) : Rs (list Z) :=
  if contains counting_tags (tag e) then
    r <- get_u32_le (data e) 5 ;;
    let (v, _) := r in inl (format_counter (tag e) v)
  else inl (tag e).

(** [get_formatted_entries] *)
Definition get_formatted_entries (es : list Entry) : Rs (list (list Z)) :=
  mapM format_entry es.

(** One iteration of the loop of [save_entries_list]:
    [out.push_str(format!("{}{}", if out == "" { "" } else { "\n" }, e))]. *)
Definition push_line (out e : list Z) : list Z :=
  out ++ (if list_eqb out [] then [] else [10]) ++ e.

(** The text [save_entries_list] writes, from the formatted entries. *)
Definition entries_list_text (fmt : list (list Z)) : list Z :=
  fold_left push_line fmt [].

(** ** Files *)

(** The regular files of the working directory: the contents of each
    path, [None] where there is no file.  An operation of [std::fs] on an
    existing file is taken to succeed, and a [write] to write the whole
    slice; [remove_file], [rename] and [copy] fail on a missing file. *)
Definition FS : Type := list Z -> option (list Z).

Definition fs_set (fs : FS) (p : list Z) (v : option (list Z)) : FS :=
  fun q => if list_eqb q p then v else fs q.

(** [std::fs::remove_file] *)
Definition fs_remove_file (fs : FS) (p : list Z) : option FS :=
  match fs p with
  | Some _ => Some (fs_set fs p None)
  | None => None
  end.

(** [std::fs::rename]: replaces the target. *)
Definition fs_rename (fs : FS) (from to : list Z) : option FS :=
  match fs from with
  | Some c => Some (fs_set (fs_set fs from None) to (Some c))
  | None => None
  end.

(** [std::fs::copy] *)
Definition fs_copy (fs : FS) (from to : list Z) : option FS :=
  match fs from with
  | Some c => Some (fs_set fs to (Some c))
  | None => None
  end.

(** [std::fs::write], and [File::create] followed by writes: the file is
    created or truncated. *)
Definition fs_write (fs : FS) (p c : list Z) : FS := fs_set fs p (Some c).

(** The call sites of [exit_on_error] that can fail in this model. *)
Inductive exit_site : Type :=
| ReadItemsFailed                (* "File items.txt was not found or couldn't be read!" *)
| RemoveBackupFailed             (* "Failed to remove file items10.txt" *)
| RenameBackupFailed (i : nat)   (* "Failed to rename items<i>.txt" *)
| CopyItemsFailed                (* "Failed to rename items.txt" (the copy) *)
| DeleteItemsFailed.             (* "Failed to delete items.txt" *)

(** Why the process ended before the end of [main]: [exit_on_error], or a
    failure of the computation ([exit] in [generate_entries], or a panic). *)
Inductive stop : Type :=
| IoExit (site : exit_site)
| Failed (f : failure).

Definition items_txt : list Z := str "items.txt".

(** [format!("{:0>2}", s)]: padded on the left with '0' to width 2. *)
Definition pad_zero2 (s : list Z) : list Z := repeat 48 (2 - length s)%nat ++ s.

(** [fnamep] of [backup_items_file] *)
Definition fnamep (i : nat) : list Z := str "items" ++ pad_zero2 (decimal i) ++ str ".txt".

Definition max_backup_counter : nat := 10.

(** The loop [for i in (0..10).rev()] of [backup_items_file], over the
    indices [is]. *)
Fixpoint rotate_backups (is : list nat) (fs : FS) : FS * option stop :=
  match is with
  | [] => (fs, None)
  | i :: is' =>
      let from := fnamep i in
      let to := fnamep (S i) in
      match fs from with
      | Some _ =>
          match fs_rename fs from to with
          | Some fs' => rotate_backups is' fs'
          | None => (fs, Some (IoExit (RenameBackupFailed i)))
          end
      | None => rotate_backups is' fs
      end
  end.

(** [backup_items_file]: the files afterwards, and the exit if any. *)
Definition backup_items_file (fs : FS) : FS * option stop :=
  let p := fnamep max_backup_counter in
  let r := match fs p with
           | Some _ =>
               match fs_remove_file fs p with
               | Some fs' => (fs', None)
               | None => (fs, Some (IoExit RemoveBackupFailed))
               end
           | None => (fs, None)
           end in
  match r with
  | (fs1, Some s) => (fs1, Some s)
  | (fs1, None) =>
      let (fs2, st) := rotate_backups (rev (seq 0 10)) fs1 in
      match st with
      | Some s => (fs2, Some s)
      | None =>
          match fs_copy fs2 items_txt (str "items00.txt") with
          | Some fs3 => (fs3, None)
          | None => (fs2, Some (IoExit CopyItemsFailed))
          end
      end
  end.

(** [save_new_items_file], on the files: [items.txt] is removed, then
    created again with the encoded entries. *)
Definition save_new_items_file_io (fs : FS) (es : list Entry) : FS * option stop :=
  match fs_remove_file fs items_txt with
  | Some fs1 => (fs_write fs1 items_txt (save_new_items_file es), None)
  | None => (fs, Some (IoExit DeleteItemsFailed))
  end.

(** [save_entries_list] *)
Definition save_entries_list (fs : FS) (es : list Entry) : FS * option stop :=
  match get_formatted_entries es with
  | inl fmt => (fs_write fs (str "items_list.txt") (entries_list_text fmt), None)
  | inr f => (fs, Some (Failed f))
  end.

(** [main], in a debug build: the files at the end, and the reason the
    process ended early, if it did. *)
Definition main (fs : FS) : FS * option stop :=
  match fs items_txt with
  | None => (fs, Some (IoExit ReadItemsFailed))
  | Some items_file =>
      let (fs1, st1) := backup_items_file fs in
      match st1 with
      | Some s => (fs1, Some s)
      | None =>
          match generate_entries items_file with
          | inr f => (fs1, Some (Failed f))
          | inl entries =>
              match clean_entries entries with
              | inr f => (fs1, Some (Failed f))
              | inl entries' =>
                  let (fs2, st2) := save_new_items_file_io fs1 entries' in
                  match st2 with
                  | Some s => (fs2, Some s)
                  | None => save_entries_list fs2 entries'
                  end
              end
          end
      end
  end.


(** ** Auxiliary definitions for the further properties *)

(** The line [get_formatted_entries] produces for a record whose payload
    is long enough. *)
Definition listing_line (e : Entry) : list Z :=
  if contains counting_tags (tag e)
  then format_counter (tag e) (le32_value (firstn 4 (skipn 5 (data e))))
  else tag e.

(** Where the loop of [get_item_id] cuts [rest], counted from its start. *)
Fixpoint id_cut (spray : bool) (rest : list Z) (nc : nat) : option nat :=
  match rest with
  | [] => None
  | c :: rest' =>
      if Nat.eqb nc 0 then
        option_map S (id_cut spray rest' (if is_digit c then 1 else 0))
      else if negb (is_digit c) || (spray && Nat.leb 2 nc) then Some 0%nat
      else option_map S (id_cut spray rest' (S nc))
  end.

(** What [backup_items_file] leaves: [items00.txt] holds [c], each backup
    moved up by one, every other file as it was. *)
Definition backup_spec (fs fs' : FS) (c : list Z) : Prop :=
  fs' (fnamep 0) = Some c /\
  (forall i, (i < 10)%nat -> fs' (fnamep (S i)) = fs (fnamep i)) /\
  (forall q, (forall j, (j <= 10)%nat -> q <> fnamep j) -> fs' q = fs q).

(** A directory with the pike records in [items.txt] and one backup. *)
Definition pike_dir : FS :=
  fun q => if list_eqb q items_txt then Some (save_new_items_file pike_input)
           else if list_eqb q (fnamep 3) then Some [3] else None.

(** A directory whose [items.txt] is one header byte. *)
Definition broken_dir : FS := fun q => if list_eqb q items_txt then Some [126] else None.

(** * Proofs *)

(** ** Generic facts *)

Lemma list_eqb_eq (a b : list Z) : list_eqb a b = true <-> a = b.
Proof.
  revert b; induction a as [|x a IH]; intros [|y b]; simpl;
    try (split; congruence).
  rewrite andb_true_iff, Z.eqb_eq, IH. split; [intros [-> ->]; auto | intros H; injection H; auto].
Qed.

Lemma list_eqb_refl (a : list Z) : list_eqb a a = true.
Proof. apply list_eqb_eq; reflexivity. Qed.

Lemma starts_with_spec (s p : list Z) : starts_with s p = true <-> exists r, s = p ++ r.
Proof.
  revert s; induction p as [|y p IH]; intros [|x s]; simpl.
  - split; eauto.
  - split; eauto.
  - split; [discriminate | intros [r H]; discriminate].
  - rewrite andb_true_iff, Z.eqb_eq, IH. split.
    + intros [-> [r ->]]; eauto.
    + intros [r H]; injection H; intros; subst; eauto.
Qed.

Lemma starts_with_app (p r : list Z) : starts_with (p ++ r) p = true.
Proof. apply starts_with_spec; eauto. Qed.

Lemma starts_with_trans (s p q : list Z) :
  starts_with s p = true -> starts_with p q = true -> starts_with s q = true.
Proof.
  rewrite !starts_with_spec. intros [r1 ->] [r2 ->]. exists (r2 ++ r1). now rewrite <- app_assoc.
Qed.

Lemma bind_inl {A B : Type} (m : Rs A) (k : A -> Rs B) (b : B) :
  bind m k = inl b -> exists a, m = inl a /\ k a = inl b.
Proof. destruct m; simpl; [eauto | discriminate]. Qed.

Lemma Forall2_in_r {A B : Type} (R : A -> B -> Prop) l l' y :
  Forall2 R l l' -> In y l' -> exists x, In x l /\ R x y.
Proof.
  induction 1 as [|x y' l l' Hxy _ IH]; simpl; [tauto|].
  intros [<- | H]; [eauto | destruct (IH H) as (x' & ? & ?); eauto].
Qed.

Lemma mapM_Forall2 {A B : Type} (f : A -> Rs B) l bs :
  mapM f l = inl bs -> Forall2 (fun a b => f a = inl b) l bs.
Proof.
  revert bs; induction l as [|a l IH]; simpl; intros bs H.
  - injection H; intros <-; constructor.
  - apply bind_inl in H as (b & Hb & H). apply bind_inl in H as (rest & Hr & H).
    injection H; intros <-. constructor; auto.
Qed.

Lemma mapM_total {A B : Type} (f : A -> Rs B) l :
  (forall a, In a l -> exists b, f a = inl b) -> exists bs, mapM f l = inl bs.
Proof.
  induction l as [|a l IH]; simpl; intros H; [eauto|].
  destruct (H a (or_introl eq_refl)) as [b Hb]. rewrite Hb; simpl.
  destruct IH as [bs Hbs]; [intros; apply H; auto|]. rewrite Hbs; simpl; eauto.
Qed.

Lemma nodupb_NoDup (l : list (list Z)) : nodupb l = true -> NoDup l.
Proof.
  induction l as [|x l IH]; simpl; intros H; constructor.
  - apply andb_true_iff in H as [H _]. intros Hin.
    assert (contains l x = true) as C.
    { apply existsb_exists. exists x. split; [auto | apply list_eqb_refl]. }
    rewrite C in H; discriminate.
  - apply andb_true_iff in H as [_ H]; auto.
Qed.

(** ** Landfill classifier *)

(** C8: [is_in_landfill] holds exactly when the payload has at least 18
    bytes and its bytes 6..18 are the 12 bytes of [landfill_pos]; so a
    shorter payload (17 bytes, say) is never in the landfill. *)
Theorem is_in_landfill_spec (e : Entry) :
  is_in_landfill e = true <->
  (18 <= length (data e))%nat /\ firstn 12 (skipn 6 (data e)) = landfill_pos.
Proof.
  destruct e as [tg d]; unfold is_in_landfill; simpl.
  destruct (Nat.ltb_spec (length d) 18) as [Hlt | Hge].
  - split; [discriminate | intros [H _]; lia].
  - do 18 (destruct d as [|? d]; [simpl in Hge; lia|]).
    simpl. rewrite !andb_true_iff, !Z.eqb_eq.
    split.
    + intros H. split; [simpl; lia|]. intuition subst. reflexivity.
    + intros [_ H]. unfold landfill_pos in H. injection H. intros. subst.
      intuition reflexivity.
Qed.

(** ** Tag grammar *)

(** C3 (the first example as the spec writes it fails): the identity of
    ["sausagesx11Transform"] keeps its digit run. *)
Lemma item_identity_sausagesx_counterexample :
  get_item_id (str "sausagesx11Transform") <> str "sausagesx".
Proof. vm_compute. discriminate. Qed.

(** C3: [get_item_id] keeps the first digit run (as the source's comment
    ["pikex36Transform" -> "pikex36"] says), so
    [get_item_id "sausagesx11Transform" = "sausagesx11"]; for a tag that
    starts with "spraycan" the run is cut after two digits:
    [get_item_id "spraycan0145Transform" = "spraycan01"]. *)
Theorem item_identity_examples :
  get_item_id (str "sausagesx11Transform") = str "sausagesx11" /\
  get_item_id (str "spraycan0145Transform") = str "spraycan01" /\
  get_item_id (str "pikex36Transform") = str "pikex36".
Proof. vm_compute. repeat split. Qed.

(** C4: [tag_set_new_count] rewrites the spec's example as documented, but a
    tag with no digit gets the number in front of it, and a tag ending in
    its digit run gets the number and then the whole old tag. *)
Theorem tag_set_new_count_evaluations :
  tag_set_new_count (str "sausagesx11Transform") 7 = str "sausagesx7Transform" /\
  tag_set_new_count (str "sugarTransform") 7 = str "7sugarTransform" /\
  tag_set_new_count (str "pikex3") 7 = str "pikex7pikex3".
Proof. vm_compute. repeat split. Qed.

(** ** Record codec *)

(** C1: a well-formed one-record buffer whose tag byte is [0xE9]: it is
    decoded as the character U+00E9 and written back as its two UTF-8
    bytes, with tag length 2. *)
Theorem roundtrip_latin1_tag :
  let buf := [0x7E; 1; 0xE9; 1; 0; 0; 0; 0x7B] in
  generate_entries buf = inl [mkEntry [0xC3; 0xA9] []] /\
  save_new_items_file [mkEntry [0xC3; 0xA9] []] = [0x7E; 2; 0xC3; 0xA9; 1; 0; 0; 0; 0x7B] /\
  save_new_items_file [mkEntry [0xC3; 0xA9] []] <> buf.
Proof. vm_compute. split; [reflexivity | split; [reflexivity | discriminate]]. Qed.

(** ** Clean transform, concrete runs *)

(** C6: ["n2x"] lies in the landfill and is not protected; its item id is
    ["n2"], which is also the item id of the blocklisted
    ["n2obottle1Transform"], so both are removed. *)
Theorem blocklisted_entry_removed :
  clean_entries [mkEntry (str "n2obottle1Transform") []; mkEntry (str "n2x") landfill_payload]
  = inl [].
Proof. vm_compute. reflexivity. Qed.

(** C7: two siblings of the spraycan instance ["spraycan0145"] end with the
    numeric suffixes 1 and 145. *)
Theorem spraycan_siblings_diverge :
  clean_entries [mkEntry (str "spraycan0145Transform") []; mkEntry (str "spraycan0145Condition") []]
  = inl [mkEntry (str "spraycan1Transform") []; mkEntry (str "spraycan145Condition") []].
Proof. vm_compute. reflexivity. Qed.

(** ** The shape of renamed tags *)

Lemma dec_aux_digits (f n : nat) (acc : list Z) :
  Forall (fun c => is_digit c = true) acc ->
  Forall (fun c => is_digit c = true) (dec_aux f n acc) /\ (acc <> [] -> dec_aux f n acc <> []).
Proof.
  revert n acc; induction f as [|f IH]; intros n acc Hacc; simpl; [auto|].
  assert (Hd : is_digit (48 + Z.of_nat (n mod 10)) = true).
  { unfold is_digit. pose proof (Nat.mod_upper_bound n 10 ltac:(lia)).
    apply andb_true_iff; split; apply Z.leb_le; lia. }
  destruct (Nat.ltb n 10).
  - split; [constructor; auto | discriminate].
  - destruct (IH (n / 10)%nat (48 + Z.of_nat (n mod 10) :: acc)) as [H1 H2];
      [constructor; auto|].
    split; [auto | intros _; apply H2; discriminate].
Qed.

Lemma decimal_digits (n : nat) :
  exists d ds, decimal n = d :: ds /\ Forall (fun c => is_digit c = true) (d :: ds).
Proof.
  unfold decimal.
  destruct (dec_aux_digits (S n) n [] (Forall_nil _)) as [H1 H2].
  destruct (dec_aux (S n) n []) as [|d ds] eqn:E.
  - exfalso. simpl in E. destruct (Nat.ltb n 10); [discriminate|].
    destruct (dec_aux_digits n (n / 10)%nat [48 + Z.of_nat (n mod 10)]) as [_ H3].
    + constructor; [|constructor]. unfold is_digit.
      pose proof (Nat.mod_upper_bound n 10 ltac:(lia)).
      apply andb_true_iff; split; apply Z.leb_le; lia.
    + apply (H3 ltac:(discriminate) E).
  - eauto.
Qed.

Lemma digit_not_bad_head (c : Z) : is_digit c = true -> bad_head c = false.
Proof.
  unfold is_digit, bad_head. rewrite andb_true_iff, !Z.leb_le. intros.
  apply orb_false_iff; split; apply Z.eqb_neq; lia.
Qed.

Lemma renamed_ok_app (p r : list Z) : renamed_ok p = true -> renamed_ok (p ++ r) = true.
Proof.
  intros H. unfold renamed_ok in *. rewrite existsb_app.
  destruct p as [|c p]; [discriminate|].
  apply andb_true_iff in H as [H1 H2]. rewrite H1. simpl. exact H2.
Qed.

(** [tag_set_new_count] keeps the first byte, or puts a digit first, and
    always writes a digit. *)
Lemma tag_set_new_count_renamed_ok (c : Z) (t : list Z) (n : nat) :
  bad_head c = false -> renamed_ok (tag_set_new_count (c :: t) n) = true.
Proof.
  intros Hc. unfold tag_set_new_count.
  destruct (num_pos_scan (c :: t) 0 0 0) as [s e].
  destruct (decimal_digits n) as (d & ds & Hdec & Hall). rewrite Hdec.
  inversion Hall as [|? ? Hd Hds]; subst.
  unfold renamed_ok. apply andb_true_iff; split.
  - rewrite existsb_app. apply orb_true_iff; right. simpl. rewrite Hd. reflexivity.
  - destruct s as [|s]; simpl.
    + rewrite (digit_not_bad_head d Hd). reflexivity.
    + rewrite Hc. reflexivity.
Qed.

(** The loop of [get_item_id] returns the whole tag, or a prefix of it
    that holds a digit. *)
Lemma item_id_loop_prefix (tg : list Z) (spray : bool) (rest pre : list Z) (nc : nat) :
  tg = pre ++ rest ->
  (nc <> 0%nat -> existsb is_digit pre = true) ->
  item_id_loop tg spray rest (length pre) nc = tg \/
  exists r, tg = item_id_loop tg spray rest (length pre) nc ++ r /\
            existsb is_digit (item_id_loop tg spray rest (length pre) nc) = true.
Proof.
  revert pre nc; induction rest as [|c rest IH]; intros pre nc Htg Hnc; simpl; [auto|].
  assert (Hlen : S (length pre) = length (pre ++ [c])) by (rewrite length_app; simpl; lia).
  assert (Htg' : tg = (pre ++ [c]) ++ rest) by (rewrite <- app_assoc; exact Htg).
  destruct (Nat.eqb_spec nc 0) as [->|Hnz].
  - destruct (is_digit c) eqn:Hd; rewrite Hlen; apply IH; auto.
    all: intros _; rewrite existsb_app; simpl; rewrite Hd; apply orb_true_r.
  - match goal with |- context [if ?b then firstn _ _ else _] => destruct b end.
    + assert (Hf : firstn (length pre) tg = pre).
      { rewrite Htg, firstn_app, Nat.sub_diag, firstn_all. simpl. apply app_nil_r. }
      right. exists (c :: rest). rewrite Hf.
      split; [exact Htg | apply Hnc; exact Hnz].
    + rewrite Hlen. apply IH; auto.
      intros _. rewrite existsb_app, (Hnc Hnz). reflexivity.
Qed.

Lemma get_item_id_prefix (t : list Z) :
  (get_item_id t = t \/ existsb is_digit (get_item_id t) = true) /\
  exists r, t = get_item_id t ++ r.
Proof.
  unfold get_item_id.
  destruct (item_id_loop_prefix t (starts_with t (str "spraycan")) t [] 0 eq_refl
              ltac:(intros H; congruence)) as [H | (r & Hr & Hd)]; simpl in *.
  - rewrite H. split; [auto | exists []; rewrite app_nil_r; reflexivity].
  - split; [auto | eauto].
Qed.

Lemma get_item_id_renamed_ok (t : list Z) :
  renamed_ok t = true -> renamed_ok (get_item_id t) = true.
Proof.
  intros Ht. destruct (get_item_id_prefix t) as [[E | Hd] [r Hr]]; [rewrite E; exact Ht|].
  unfold renamed_ok in *. rewrite Hd. simpl.
  destruct (get_item_id t) as [|c p]; [discriminate|].
  rewrite Hr in Ht. simpl in Ht. apply andb_true_iff in Ht as [_ Ht]. exact Ht.
Qed.

Lemma get_item_id_nonempty (t : list Z) : t <> [] -> get_item_id t <> [].
Proof.
  intros Ht. destruct (get_item_id_prefix t) as [[E | Hd] _].
  - rewrite E; exact Ht.
  - intros E; rewrite E in Hd; discriminate.
Qed.

(** [tg.replace(old, new)] on a tag that starts with a non-empty [old]
    starts with [new]. *)
Lemma str_replace_head (old r new : list Z) :
  old <> [] -> exists r', str_replace (old ++ r) old new = new ++ r'.
Proof.
  intros Hold. destruct old as [|o os]; [congruence|].
  unfold str_replace. simpl length. simpl.
  rewrite Z.eqb_refl. simpl.
  replace (starts_with (os ++ r) os) with true by (symmetry; apply starts_with_app).
  eauto.
Qed.

(** ** The renaming pass *)

(** A tag under a [name_ok] group prefix that is not blocklisted, or is
    already a renamed tag, starts with neither 'r' nor 'S'. *)
Lemma head_not_bad (n t : list Z) :
  name_ok n = true -> starts_with t n = true ->
  existsb (fun bi => starts_with t bi) blacklist = false \/ renamed_ok t = true ->
  exists c t', t = c :: t' /\ bad_head c = false.
Proof.
  intros Hn Hs Ht. destruct n as [|c n']; [discriminate|].
  apply starts_with_spec in Hs as [r Hr]. subst t.
  exists c, (n' ++ r). split; [reflexivity|].
  change (negb (bad_head c) || existsb (fun b => starts_with (c :: n') b) blacklist = true) in Hn.
  destruct (bad_head c) eqn:Hc; [|reflexivity].
  rewrite orb_false_l in Hn. exfalso. destruct Ht as [Ht | Ht].
  - apply existsb_exists in Hn as (b & Hb & Hsb).
    assert (existsb (fun bi => starts_with ((c :: n') ++ r) bi) blacklist = true) as C.
    { apply existsb_exists. exists b. split; [exact Hb|].
      apply (starts_with_trans _ (c :: n')); [apply starts_with_app | exact Hsb]. }
    rewrite C in Ht. discriminate.
  - unfold renamed_ok in Ht. change ((c :: n') ++ r) with (c :: n' ++ r) in Ht.
    apply andb_true_iff in Ht as [_ Ht].
    change (negb (bad_head c) = true) in Ht. rewrite Hc in Ht. discriminate.
Qed.

Definition map_ok (m : IdMap) : Prop := Forall (fun p => renamed_ok (snd p) = true) m.

Lemma gkey_set_count (g : Group) (c : nat) : gkey (set_count g c) = gkey g.
Proof. reflexivity. Qed.

Lemma gkey_tagname (a b : list Group) : map gkey a = map gkey b -> map tagname a = map tagname b.
Proof.
  intros H. replace (map tagname a) with (map (fun k => fst (fst k)) (map gkey a))
    by (rewrite map_map; reflexivity).
  rewrite H, map_map. reflexivity.
Qed.

Lemma gkey_tagid (a b : list Group) : map gkey a = map gkey b -> map tagid a = map tagid b.
Proof.
  intros H. replace (map tagid a) with (map (fun k => snd (fst k)) (map gkey a))
    by (rewrite map_map; reflexivity).
  rewrite H, map_map. reflexivity.
Qed.

(** The inner loop keeps each group's prefix, counter tag and maximum,
    keeps the map's new ids renamed tags, and returns the tag unchanged
    or a renamed tag of a record under one of the groups' prefixes. *)
Lemma rename_groups_spec (gs : list Group) (tg : list Z) (m : IdMap)
    (gs' : list Group) (tg' : list Z) (m' : IdMap) :
  forallb name_ok (map tagname gs) = true ->
  map_ok m ->
  existsb (fun bi => starts_with tg bi) blacklist = false \/ renamed_ok tg = true ->
  rename_groups gs tg m = (gs', tg', m') ->
  map gkey gs' = map gkey gs /\ map_ok m' /\
  (tg' = tg \/ (renamed_ok tg' = true /\
                exists n, In n (map tagname gs) /\ starts_with tg n = true)).
Proof.
  revert tg m gs' tg' m'.
  induction gs as [|g gs IH]; intros tg m gs' tg' m' Hn Hm Ht H; simpl in H.
  - injection H; intros; subst. auto.
  - simpl in Hn. apply andb_true_iff in Hn as [Hg Hn].
    destruct (list_eqb (tagid g) tg).
    { destruct (rename_groups gs tg m) as [[gs1 tg1] m1] eqn:E.
      injection H; intros; subst.
      destruct (IH _ _ _ _ _ Hn Hm Ht E) as (K & M & T).
      split; [simpl; f_equal; exact K|]. split; [exact M|].
      destruct T as [T | (R & n & Hin & Hs)]; [auto|].
      right; split; [exact R|]. exists n; simpl; auto. }
    destruct (starts_with tg (tagname g)) eqn:Hsg.
    2: { destruct (rename_groups gs tg m) as [[gs1 tg1] m1] eqn:E.
         injection H; intros; subst.
         destruct (IH _ _ _ _ _ Hn Hm Ht E) as (K & M & T).
         split; [simpl; f_equal; exact K|]. split; [exact M|].
         destruct T as [T | (R & n & Hin & Hs)]; [auto|].
         right; split; [exact R|]. exists n; simpl; auto. }
    destruct (head_not_bad _ _ Hg Hsg Ht) as (c & t' & Htg & Hc).
    assert (Hid : get_item_id tg <> []) by (apply get_item_id_nonempty; rewrite Htg; discriminate).
    destruct (find_old m (get_item_id tg)) as [[oldid newid]|] eqn:Hf.
    + unfold find_old in Hf. apply find_some in Hf as [Hin Heq]. simpl in Heq.
      apply list_eqb_eq in Heq. subst oldid.
      assert (Rn : renamed_ok newid = true)
        by (unfold map_ok in Hm; rewrite Forall_forall in Hm; exact (Hm _ Hin)).
      destruct (get_item_id_prefix tg) as [_ [r Hr]].
      destruct (str_replace_head (get_item_id tg) r newid Hid) as [r' Hr'].
      rewrite <- Hr in Hr'.
      assert (Rt : renamed_ok (str_replace tg (get_item_id tg) newid) = true)
        by (rewrite Hr'; apply renamed_ok_app; exact Rn).
      destruct (rename_groups gs (str_replace tg (get_item_id tg) newid) m)
        as [[gs1 tg1] m1] eqn:E.
      injection H; intros; subst.
      destruct (IH _ _ _ _ _ Hn Hm (or_intror Rt) E) as (K & M & T).
      split; [simpl; f_equal; exact K|]. split; [exact M|].
      right. split; [destruct T as [-> | [R _]]; assumption|].
      exists (tagname g); simpl; auto.
    + set (tg1 := tag_set_new_count tg (count g)) in *.
      assert (R1 : renamed_ok tg1 = true)
        by (unfold tg1; rewrite Htg; apply tag_set_new_count_renamed_ok; exact Hc).
      assert (M1 : map_ok (m ++ [(get_item_id tg, get_item_id tg1)])).
      { unfold map_ok. apply Forall_app; split; [exact Hm|].
        constructor; [apply get_item_id_renamed_ok; exact R1 | constructor]. }
      destruct (rename_groups gs tg1 (m ++ [(get_item_id tg, get_item_id tg1)]))
        as [[gs1 tg2] m1] eqn:E.
      injection H; intros; subst.
      destruct (IH _ _ _ _ _ Hn M1 (or_intror R1) E) as (K & M & T).
      split.
      { simpl. f_equal; [destruct (Nat.ltb 0 (count g)); reflexivity | exact K]. }
      split; [exact M|].
      right. split; [destruct T as [-> | [R _]]; assumption|].
      exists (tagname g); simpl; auto.
Qed.

(** What the renaming pass does to one record: its data is kept, and its
    tag is kept or replaced by a renamed tag of a record under a group
    prefix. *)
Definition renamed_from (names : list (list Z)) (e e' : Entry) : Prop :=
  data e' = data e /\
  (tag e' = tag e \/
   (renamed_ok (tag e') = true /\ exists n, In n names /\ starts_with (tag e) n = true)).

Lemma rename_entries_spec (res : list Entry) (gs : list Group) (m : IdMap)
    (out : list Entry) (gs' : list Group) :
  forallb name_ok (map tagname gs) = true ->
  map_ok m ->
  rename_entries res gs m = (out, gs') ->
  map gkey gs' = map gkey gs /\ Forall2 (renamed_from (map tagname gs)) res out.
Proof.
  revert gs m out gs'.
  induction res as [|e res IH]; intros gs m out gs' Hn Hm H; simpl in H.
  - injection H; intros; subst. split; [reflexivity | constructor].
  - destruct (protected_tag (tag e)) eqn:Hp.
    + destruct (rename_entries res gs m) as [out1 gs1] eqn:E.
      injection H; intros; subst.
      destruct (IH _ _ _ _ Hn Hm E) as [K F].
      split; [exact K|]. constructor; [split; auto | exact F].
    + destruct (rename_groups gs (tag e) m) as [[gs1 tg1] m1] eqn:E1.
      destruct (rename_entries res gs1 m1) as [out1 gs2] eqn:E2.
      injection H; intros; subst.
      unfold protected_tag in Hp. apply orb_false_iff in Hp as [_ Hb].
      destruct (rename_groups_spec _ _ _ _ _ _ Hn Hm (or_introl Hb) E1) as (K1 & M1 & T1).
      assert (Hn1 : forallb name_ok (map tagname gs1) = true)
        by (rewrite (gkey_tagname _ _ K1); exact Hn).
      destruct (IH _ _ _ _ Hn1 M1 E2) as [K2 F].
      split; [rewrite K2; exact K1|].
      constructor.
      * split; [reflexivity|]. simpl. exact T1.
      * rewrite <- (gkey_tagname _ _ K1). exact F.
Qed.

(** ** Landfill removal *)

Lemma located_contains (es : list Entry) (acc : list (list Z)) (x : list Z) :
  contains (fold_left (fun acc e => if landfill_removable e then acc ++ [get_item_id (tag e)] else acc)
                      es acc) x
  = contains acc x || existsb (fun l => landfill_removable l && list_eqb (get_item_id (tag l)) x) es.
Proof.
  revert acc; induction es as [|e es IH]; intros acc; simpl.
  - rewrite orb_false_r. reflexivity.
  - rewrite IH. destruct (landfill_removable e); simpl.
    + unfold contains at 1. rewrite existsb_app. simpl. rewrite orb_false_r.
      symmetry; apply orb_assoc.
    + reflexivity.
Qed.

(** The code's removal is the identity-scoped removal. *)
Lemma remove_landfill_survivors (es : list Entry) : remove_landfill es = survivors es.
Proof.
  unfold remove_landfill, survivors, located_in_landfill, landfill_dropped.
  apply filter_ext. intros e. rewrite located_contains. reflexivity.
Qed.

Lemma survivors_incl (es : list Entry) (e : Entry) : In e (survivors es) -> In e es.
Proof. unfold survivors. rewrite filter_In. tauto. Qed.

(** ** Counting *)

Lemma fold_count_entry (res : list Entry) (gs : list Group) :
  fold_left count_entry res gs =
  map (fun g => mkGroup (tagname g) (tagid g) (has_default_zero_item g)
                        (count g + population g res) (max g + population g res)) gs.
Proof.
  revert gs; induction res as [|e res IH]; intros gs; simpl.
  - rewrite <- (map_id gs) at 1. apply map_ext. intros [n i z c mx]. simpl.
    unfold population; simpl. rewrite !Nat.add_0_r. reflexivity.
  - rewrite IH. unfold count_entry. rewrite map_map. apply map_ext. intros g.
    assert (Hc : forall a b, counted_in (mkGroup (tagname g) (tagid g)
                                (has_default_zero_item g) a b) = counted_in g)
      by reflexivity.
    unfold population. simpl.
    destruct (counted_in g e) eqn:He; simpl; rewrite ?Hc.
    + f_equal; lia.
    + reflexivity.
Qed.

Lemma item_counts_zero (g : Group) : In g item_counts -> count g = 0%nat /\ max g = 0%nat.
Proof. intros H. repeat (destruct H as [<- | H]; [split; reflexivity|]). destruct H. Qed.

(** Counting and reducing give each configured group its maximum. *)
Lemma counted_groups_keys (es : list Entry) :
  map gkey (counted_groups (survivors es)) =
  map (fun g => (tagname g, tagid g, group_max es g)) item_counts.
Proof.
  unfold counted_groups. rewrite fold_count_entry, !map_map.
  apply map_ext_in. intros g Hg. destruct (item_counts_zero g Hg) as [Hc Hm].
  unfold reduce_group, gkey, group_max. simpl. rewrite Hc, Hm. simpl.
  destruct (population g (survivors es)) as [|p];
    destruct (has_default_zero_item g); reflexivity.
Qed.

(** ** The counter patch *)

Lemma patch_counter_spec (d : list Z) (mx : nat) :
  patch_counter d mx =
  if Nat.leb 9 (length d) then inl (firstn 5 d ++ mk_u32_le (Z.of_nat mx) ++ skipn 9 d)
  else inr IndexOutOfBounds.
Proof. do 9 (destruct d as [|? d]; [reflexivity|]). reflexivity. Qed.

Definition patch_step (t : list Z) (d : list Z) (g : Group) : Rs (list Z) :=
  if list_eqb t (tagid g) then patch_counter d (max g) else inl d.

Lemma patch_entry_fold (gs : list Group) (e : Entry) :
  patch_entry gs e = (dt <- mfold (patch_step (tag e)) gs (data e) ;; inl (mkEntry (tag e) dt)).
Proof. reflexivity. Qed.

Lemma patched_shape (d : list Z) (v : list Z) :
  (9 <= length d)%nat -> length v = 4%nat ->
  length (firstn 5 d ++ v ++ skipn 9 d) = length d /\
  firstn 5 (firstn 5 d ++ v ++ skipn 9 d) = firstn 5 d /\
  skipn 9 (firstn 5 d ++ v ++ skipn 9 d) = skipn 9 d /\
  firstn 4 (skipn 5 (firstn 5 d ++ v ++ skipn 9 d)) = v.
Proof.
  intros Hd Hv.
  do 9 (destruct d as [|? d]; [simpl in Hd; lia|]).
  do 4 (destruct v as [|? v]; [discriminate|]). destruct v; [|discriminate].
  repeat split.
Qed.

Lemma inl_inj {A : Type} (a b : A) : @inl A failure a = inl b -> a = b.
Proof. intros H. injection H. auto. Qed.

Lemma patch_fold_frame (t : list Z) (gs : list Group) (d d' : list Z) :
  mfold (patch_step t) gs d = inl d' ->
  length d' = length d /\
  (d' = d \/ (exists g, In g gs /\ t = tagid g /\
                        firstn 5 d' = firstn 5 d /\ skipn 9 d' = skipn 9 d)).
Proof.
  revert d; induction gs as [|g gs IH]; intros d H; cbn [mfold] in H.
  - apply inl_inj in H. subst d'. auto.
  - apply bind_inl in H as (d1 & H1 & H). unfold patch_step in H1.
    destruct (list_eqb t (tagid g)) eqn:Ht.
    + apply list_eqb_eq in Ht. rewrite patch_counter_spec in H1.
      destruct (Nat.leb 9 (length d)) eqn:Hl; [|discriminate].
      apply Nat.leb_le in Hl. apply inl_inj in H1; subst d1.
      destruct (patched_shape d (mk_u32_le (Z.of_nat (max g))) Hl eq_refl)
        as (L & F & S & _).
      destruct (IH _ H) as [L' [-> | (g' & Hg' & Ht' & F' & S')]].
      * split; [exact L|]. right. exists g.
        split; [left; reflexivity|]. split; [exact Ht|]. split; [exact F | exact S].
      * split; [rewrite L'; exact L|]. right. exists g'.
        split; [right; exact Hg'|]. split; [exact Ht'|].
        split; [rewrite F'; exact F | rewrite S'; exact S].
    + apply inl_inj in H1; subst d1.
      destruct (IH _ H) as [L' [-> | (g' & Hg' & R)]].
      * split; [reflexivity | left; reflexivity].
      * split; [exact L'|]. right. exists g'. split; [right; exact Hg' | exact R].
Qed.

Lemma patch_fold_total (t : list Z) (gs : list Group) (d : list Z) :
  (forall g, In g gs -> tagid g = t -> (9 <= length d)%nat) ->
  exists d', mfold (patch_step t) gs d = inl d'.
Proof.
  revert d; induction gs as [|g gs IH]; intros d H; cbn [mfold]; [eauto|].
  unfold patch_step at 1. destruct (list_eqb t (tagid g)) eqn:Ht.
  - apply list_eqb_eq in Ht.
    assert (Hl : (9 <= length d)%nat)
      by (apply (H g); [left; reflexivity | symmetry; exact Ht]).
    assert (Hb : Nat.leb 9 (length d) = true) by (apply Nat.leb_le; exact Hl).
    rewrite patch_counter_spec, Hb. cbn [bind].
    apply IH. intros g' _ _.
    destruct (patched_shape d (mk_u32_le (Z.of_nat (max g))) Hl eq_refl) as (L & _).
    rewrite L. exact Hl.
  - cbn [bind]. apply IH. intros g' Hg' Ht'. apply (H g'); [right; exact Hg' | exact Ht'].
Qed.

Lemma patch_fold_noop (t : list Z) (gs : list Group) (d : list Z) :
  (forall g, In g gs -> tagid g <> t) -> mfold (patch_step t) gs d = inl d.
Proof.
  induction gs as [|g gs IH]; intros H; cbn [mfold]; [reflexivity|].
  unfold patch_step at 1. destruct (list_eqb t (tagid g)) eqn:Ht.
  - apply list_eqb_eq in Ht. exfalso. apply (H g); [left; reflexivity | symmetry; exact Ht].
  - cbn [bind]. apply IH. intros g' Hg'. apply H. right; exact Hg'.
Qed.

Lemma patch_fold_value (t : list Z) (gs : list Group) (g : Group) (d d' : list Z) :
  NoDup (map tagid gs) -> In g gs -> tagid g = t ->
  mfold (patch_step t) gs d = inl d' ->
  firstn 4 (skipn 5 d') = mk_u32_le (Z.of_nat (max g)).
Proof.
  revert d; induction gs as [|g0 gs IH]; intros d Hn Hg Ht H; [destruct Hg|].
  cbn [mfold] in H. apply bind_inl in H as (d1 & H1 & H). inversion Hn as [|x l Hx Hn']; subst.
  unfold patch_step in H1. destruct (list_eqb (tagid g) (tagid g0)) eqn:He.
  - apply list_eqb_eq in He.
    assert (Hg0 : g0 = g).
    { destruct Hg as [Hg | Hg]; [exact Hg|]. exfalso. apply Hx. rewrite <- He.
      apply in_map. exact Hg. }
    subst g0. rewrite patch_counter_spec in H1.
    destruct (Nat.leb 9 (length d)) eqn:Hl; [|discriminate]. apply Nat.leb_le in Hl.
    apply inl_inj in H1; subst d1.
    rewrite patch_fold_noop in H.
    + apply inl_inj in H. subst d'.
      apply (patched_shape d (mk_u32_le (Z.of_nat (max g))) Hl eq_refl).
    + intros g' Hg' Hgt. apply Hx. rewrite <- Hgt. apply in_map. exact Hg'.
  - apply inl_inj in H1; subst d1. destruct Hg as [<- | Hg].
    + rewrite list_eqb_refl in He. discriminate.
    + exact (IH _ Hn' Hg eq_refl H).
Qed.

(** ** The state before the patch loop *)

Lemma map_eq_in {A B C : Type} (f : A -> C) (h : B -> C) (a : list A) (b : list B) (y : B) :
  map f a = map h b -> In y b -> exists x, In x a /\ f x = h y.
Proof.
  revert b; induction a as [|x a IH]; intros [|y' b] H Hy; simpl in *; try discriminate;
    [destruct Hy|].
  injection H; intros Hr Hx. destruct Hy as [<- | Hy]; [eauto|].
  destruct (IH b Hr Hy) as (x' & ? & ?); eauto.
Qed.

Lemma Forall2_compose {A B C : Type} (P : A -> B -> Prop) (Q : B -> C -> Prop)
    (R : A -> C -> Prop) l1 l2 l3 :
  (forall a b c, P a b -> Q b c -> R a c) ->
  Forall2 P l1 l2 -> Forall2 Q l2 l3 -> Forall2 R l1 l3.
Proof.
  intros HR H12. revert l3. induction H12; intros l3 H23; inversion H23; subst;
    constructor; eauto.
Qed.

Lemma item_counts_names : forallb name_ok (map tagname item_counts) = true.
Proof. vm_compute. reflexivity. Qed.

Lemma item_counts_ids_nodup : NoDup (map tagid item_counts).
Proof. apply nodupb_NoDup. vm_compute. reflexivity. Qed.

(** No counter tag has the shape of a renamed tag. *)
Lemma item_counts_ids_fresh :
  forallb (fun g => negb (renamed_ok (tagid g))) item_counts = true.
Proof. vm_compute. reflexivity. Qed.

Lemma clean_state_spec (es res' : list Entry) (gs' : list Group) :
  clean_state es = (res', gs') ->
  map gkey gs' = map (fun g => (tagname g, tagid g, group_max es g)) item_counts /\
  Forall2 (renamed_from (map tagname item_counts)) (survivors es) res'.
Proof.
  unfold clean_state. rewrite remove_landfill_survivors. intros H.
  assert (Hk := counted_groups_keys es).
  assert (Hn : map tagname (counted_groups (survivors es)) = map tagname item_counts).
  { apply (f_equal (map (fun k => fst (fst k)))) in Hk. rewrite !map_map in Hk. exact Hk. }
  assert (Hok : forallb name_ok (map tagname (counted_groups (survivors es))) = true)
    by (rewrite Hn; apply item_counts_names).
  destruct (rename_entries_spec _ _ _ _ _ Hok (Forall_nil _) H) as [Hg Hf].
  split; [congruence | rewrite <- Hn; exact Hf].
Qed.

Lemma clean_state_ids (es res' : list Entry) (gs' : list Group) :
  clean_state es = (res', gs') -> map tagid gs' = map tagid item_counts.
Proof.
  intros H. destruct (clean_state_spec _ _ _ H) as [Hk _].
  apply (f_equal (map (fun k => snd (fst k)))) in Hk. rewrite !map_map in Hk. exact Hk.
Qed.

(** A record that carries a counter tag after renaming carried it before. *)
Lemma counter_tag_original (e e' : Entry) (g : Group) :
  In g item_counts -> renamed_from (map tagname item_counts) e e' ->
  tag e' = tagid g -> tag e' = tag e.
Proof.
  intros Hg [_ [Ht | [Hr _]]] He; [exact Ht|].
  exfalso. pose proof item_counts_ids_fresh as F. rewrite forallb_forall in F.
  specialize (F g Hg). rewrite <- He, Hr in F. discriminate.
Qed.

Lemma not_counter_tag (t : list Z) :
  existsb (fun g => list_eqb t (tagid g)) item_counts = false ->
  forall g, In g item_counts -> t <> tagid g.
Proof.
  intros H g Hg Ht. assert (E : existsb (fun g => list_eqb t (tagid g)) item_counts = true).
  { apply existsb_exists. exists g. split; [exact Hg | apply list_eqb_eq; exact Ht]. }
  rewrite H in E. discriminate.
Qed.

Lemma patch_entry_inl (gs : list Group) (e e'' : Entry) :
  patch_entry gs e = inl e'' ->
  tag e'' = tag e /\ mfold (patch_step (tag e)) gs (data e) = inl (data e'').
Proof.
  rewrite patch_entry_fold. intros H. apply bind_inl in H as (dt & H & E).
  apply inl_inj in E. subst e''. auto.
Qed.

(** * The clean transform as a whole *)

(** C9: the output of [clean_entries] is the list of records that survive
    identity-scoped landfill removal, in their input order, each mutated in
    place: its payload keeps its length and changes at most in bytes 5..9 of
    a counter record, and its tag is kept or renamed from a tag that starts
    with a group prefix. No record is added, reordered or dropped otherwise. *)
Theorem clean_entries_in_place (es out : list Entry) :
  clean_entries es = inl out ->
  Forall2 kept_in_place (filter (fun e => negb (landfill_dropped es e)) es) out.
Proof.
  intros H. unfold clean_entries in H.
  destruct (clean_state es) as [res' gs'] eqn:Hs.
  destruct (clean_state_spec _ _ _ Hs) as [_ Hf].
  pose proof (clean_state_ids _ _ _ Hs) as Hids.
  apply mapM_Forall2 in H.
  change (Forall2 kept_in_place (survivors es) out).
  eapply Forall2_compose; [|exact Hf|exact H].
  intros e e1 e2 [Hd Htg] Hp. apply patch_entry_inl in Hp as [Htag Hm].
  destruct (patch_fold_frame _ _ _ _ Hm) as [L Hfr].
  split; [rewrite L, Hd; reflexivity|]. split.
  - destruct Hfr as [Hd' | (g' & Hg' & Ht' & F & S)]; [left; rewrite Hd', Hd; reflexivity|].
    right.
    assert (Hin : In (tagid g') (map tagid item_counts))
      by (rewrite <- Hids; apply in_map; exact Hg').
    apply in_map_iff in Hin as (g & Hgt & Hg).
    exists g. split; [exact Hg|]. split; [rewrite Htag, Ht', Hgt; reflexivity|].
    rewrite <- Hd. split; [exact F | exact S].
  - destruct Htg as [Ht | [_ (n & Hn & Hst)]]; [left; rewrite Htag; exact Ht|].
    right. apply in_map_iff in Hn as (g & <- & Hg). exists g. auto.
Qed.

(** Witness: the pike example, three records in, three records out. *)
Lemma clean_entries_in_place_witness :
  clean_entries pike_input = inl pike_output /\
  Forall2 kept_in_place (filter (fun e => negb (landfill_dropped pike_input e)) pike_input)
    pike_output.
Proof.
  split; [vm_compute; reflexivity|].
  apply (clean_entries_in_place pike_input pike_output). vm_compute. reflexivity.
Defined.

(** C10: the counter patch writes bytes 5..9 without a length check. The
    transform succeeds on every input in which each record carrying a
    configured counter tag has a payload of at least 9 bytes, and fails
    with an index-out-of-bounds error on a counter record with 3 bytes. *)
Theorem clean_entries_total_iff_counter_payloads :
  (forall es,
     (forall e, In e es -> (exists g, In g item_counts /\ tag e = tagid g) ->
                (9 <= length (data e))%nat) ->
     exists out, clean_entries es = inl out) /\
  clean_entries [mkEntry (str "pikexID") [0; 0; 0]] = inr IndexOutOfBounds.
Proof.
  split; [|vm_compute; reflexivity].
  intros es Hpre. unfold clean_entries.
  destruct (clean_state es) as [res' gs'] eqn:Hs.
  destruct (clean_state_spec _ _ _ Hs) as [_ Hf].
  pose proof (clean_state_ids _ _ _ Hs) as Hids.
  apply mapM_total. intros e1 He1.
  destruct (Forall2_in_r _ _ _ _ Hf He1) as (e & He & Hr).
  rewrite patch_entry_fold.
  destruct (patch_fold_total (tag e1) gs' (data e1)) as [dt Hdt].
  - intros g' Hg' Ht'.
    assert (Hin : In (tagid g') (map tagid item_counts))
      by (rewrite <- Hids; apply in_map; exact Hg').
    apply in_map_iff in Hin as (g & Hgt & Hg).
    assert (Ho : tag e1 = tag e)
      by (apply (counter_tag_original e e1 g Hg Hr); rewrite <- Ht'; symmetry; exact Hgt).
    destruct Hr as [Hd _]. rewrite Hd. apply Hpre.
    + apply survivors_incl. exact He.
    + exists g. split; [exact Hg|]. rewrite <- Ho, <- Ht'. symmetry; exact Hgt.
  - rewrite Hdt. cbn [bind]. eauto.
Qed.

(** Witness: the pike example meets the payload condition. *)
Lemma clean_entries_total_iff_counter_payloads_witness :
  exists out, clean_entries pike_input = inl out.
Proof.
  apply (proj1 clean_entries_total_iff_counter_payloads pike_input).
  intros e He (g & Hg & Ht). unfold pike_input in He.
  destruct He as [<- | [<- | [<- | []]]];
    [exfalso; revert Ht; apply not_counter_tag; [vm_compute; reflexivity | exact Hg]
    |exfalso; revert Ht; apply not_counter_tag; [vm_compute; reflexivity | exact Hg]
    |vm_compute; lia].
Defined.

(** C5, counterexample: one counted sausage record survives, while the
    sausage group has a default zero item (baseline adjustment 1) and its
    counter record carries the maximum 0. The surviving count 1 is not
    the maximum minus the adjustment (0 - 1); it is the maximum plus the
    adjustment. *)
Lemma group_population_counterexample :
  clean_entries sausage_input = inl sausage_output /\
  In (grp "sausagesx" "SausagesxID" true) item_counts /\
  population (grp "sausagesx" "SausagesxID" true) sausage_output = 1%nat /\
  firstn 4 (skipn 5 zeros9) = mk_u32_le 0.
Proof.
  split; [vm_compute; reflexivity|].
  split; [right; left; reflexivity|].
  split; vm_compute; reflexivity.
Qed.

(** C5, amended: for a configured group [g], let [P] be the number of
    records surviving landfill removal whose tag starts with the group's
    prefix and ends with "Transform" (counted before renaming). The group
    maximum is [P - 1] when [P >= 1] and the group has a default zero item,
    and [P] otherwise, so [P] is the maximum plus the adjustment. Every
    output record whose tag is the group's counter tag carries this maximum,
    little-endian, in payload bytes 5..9. *)
Theorem group_counter_patched (es out : list Entry) (g : Group) (e : Entry) :
  clean_entries es = inl out -> In g item_counts -> In e out -> tag e = tagid g ->
  firstn 4 (skipn 5 (data e)) = mk_u32_le (Z.of_nat (group_max es g)) /\
  population g (survivors es) =
    (group_max es g +
     (if Nat.leb 1 (population g (survivors es)) && has_default_zero_item g
      then 1 else 0))%nat.
Proof.
  intros H Hg He Ht. unfold clean_entries in H.
  destruct (clean_state es) as [res' gs'] eqn:Hs.
  destruct (clean_state_spec _ _ _ Hs) as [Hk _].
  pose proof (clean_state_ids _ _ _ Hs) as Hids.
  apply mapM_Forall2 in H.
  destruct (Forall2_in_r _ _ _ _ H He) as (e1 & He1 & Hp).
  apply patch_entry_inl in Hp as [Htag Hm].
  destruct (map_eq_in gkey _ gs' item_counts g Hk Hg) as (g' & Hg' & Hkey).
  assert (Hi : tagid g' = tagid g) by exact (f_equal (fun k => snd (fst k)) Hkey).
  assert (Hmx : max g' = group_max es g) by exact (f_equal snd Hkey).
  split.
  - rewrite <- Hmx.
    apply (patch_fold_value (tag e1) gs' g' (data e1) (data e)).
    + rewrite Hids. exact item_counts_ids_nodup.
    + exact Hg'.
    + rewrite Hi, <- Ht, Htag. reflexivity.
    + exact Hm.
  - unfold group_max. cbv zeta.
    destruct (population g (survivors es)) as [|p];
      destruct (has_default_zero_item g); simpl; lia.
Qed.

(** Witness: the pike counter record carries the maximum 2. *)
Lemma group_counter_patched_witness :
  firstn 4 (skipn 5 [0; 0; 0; 0; 0; 2; 0; 0; 0]) =
    mk_u32_le (Z.of_nat (group_max pike_input (grp "pikex" "pikexID" false))) /\
  population (grp "pikex" "pikexID" false) (survivors pike_input) =
    (group_max pike_input (grp "pikex" "pikexID" false) + 0)%nat.
Proof.
  apply (group_counter_patched pike_input pike_output (grp "pikex" "pikexID" false)
           (mkEntry (str "pikexID") [0; 0; 0; 0; 0; 2; 0; 0; 0])).
  - vm_compute. reflexivity.
  - do 11 right. left. reflexivity.
  - unfold pike_output. right. right. left. reflexivity.
  - reflexivity.
Defined.

(** * The decoder *)

(** ** Reading at a cursor *)

Lemma skip_add (buf : list Z) (i k : nat) : skipn (i + k) buf = skipn k (skipn i buf).
Proof. rewrite skipn_skipn, Nat.add_comm. reflexivity. Qed.

Lemma at_skip (buf : list Z) (i : nat) :
  at_ buf i = match skipn i buf with [] => inr IndexOutOfBounds | x :: _ => inl x end.
Proof.
  unfold at_. pose proof (nth_error_skipn i buf 0) as E. rewrite Nat.add_0_r in E.
  rewrite <- E. destruct (skipn i buf); reflexivity.
Qed.

Lemma at_cons (buf : list Z) (i : nat) (x : Z) (r : list Z) :
  skipn i buf = x :: r -> at_ buf i = inl x.
Proof. intros H. rewrite at_skip, H. reflexivity. Qed.

Lemma at_nil (buf : list Z) (i : nat) : skipn i buf = [] -> at_ buf i = inr IndexOutOfBounds.
Proof. intros H. rewrite at_skip, H. reflexivity. Qed.

Lemma skip_step (buf : list Z) (i : nat) (x : Z) (r : list Z) :
  skipn i buf = x :: r -> skipn (S i) buf = r.
Proof. intros H. rewrite <- Nat.add_1_r, skip_add, H. reflexivity. Qed.

Lemma skip_app (buf : list Z) (i : nat) (a r : list Z) :
  skipn i buf = a ++ r -> skipn (i + length a) buf = r.
Proof.
  intros H. rewrite skip_add, H, skipn_app, skipn_all, Nat.sub_diag. reflexivity.
Qed.

Lemma read_bytes_app (buf : list Z) (i : nat) (a r : list Z) :
  skipn i buf = a ++ r -> read_bytes buf i (length a) = inl a.
Proof.
  revert i; induction a as [|x a IH]; intros i H; [reflexivity|].
  simpl in H. cbn [length read_bytes]. rewrite (at_cons _ _ _ _ H). cbn [bind].
  rewrite (IH (S i) (skip_step _ _ _ _ H)). reflexivity.
Qed.

Lemma read_bytes_short (buf : list Z) (i k : nat) :
  (length (skipn i buf) < k)%nat -> read_bytes buf i k = inr IndexOutOfBounds.
Proof.
  revert i; induction k as [|k IH]; intros i H; [lia|]. cbn [read_bytes].
  destruct (skipn i buf) as [|x r] eqn:E.
  - rewrite (at_nil _ _ E). reflexivity.
  - rewrite (at_cons _ _ _ _ E). cbn [bind]. rewrite IH; [reflexivity|].
    rewrite (skip_step _ _ _ _ E). simpl in H. lia.
Qed.

Lemma get_chars_app (buf : list Z) (i : nat) (a r : list Z) :
  skipn i buf = a ++ r -> get_chars buf i (length a) = inl (flat_map char_bytes a).
Proof.
  revert i; induction a as [|x a IH]; intros i H; [reflexivity|].
  simpl in H. cbn [length get_chars]. rewrite (at_cons _ _ _ _ H). cbn [bind].
  rewrite (IH (S i) (skip_step _ _ _ _ H)). reflexivity.
Qed.

Lemma get_chars_short (buf : list Z) (i k : nat) :
  (length (skipn i buf) < k)%nat -> get_chars buf i k = inr IndexOutOfBounds.
Proof.
  revert i; induction k as [|k IH]; intros i H; [lia|]. cbn [get_chars].
  destruct (skipn i buf) as [|x r] eqn:E.
  - rewrite (at_nil _ _ E). reflexivity.
  - rewrite (at_cons _ _ _ _ E). cbn [bind]. rewrite IH; [reflexivity|].
    rewrite (skip_step _ _ _ _ E). simpl in H. lia.
Qed.

Lemma get_u32_le_app (buf : list Z) (i : nat) (w r : list Z) :
  skipn i buf = w ++ r -> length w = 4%nat ->
  get_u32_le buf i = inl (le32_value w, (i + 4)%nat).
Proof.
  intros H Hw. destruct w as [|b0 [|b1 [|b2 [|b3 [|? ?]]]]]; try discriminate Hw.
  unfold get_u32_le. rewrite !at_skip, !skip_add, H. reflexivity.
Qed.

Lemma get_u32_le_short (buf : list Z) (i : nat) :
  (length (skipn i buf) < 4)%nat -> get_u32_le buf i = inr IndexOutOfBounds.
Proof.
  intros H. unfold get_u32_le. rewrite !at_skip, !skip_add.
  destruct (skipn i buf) as [|b0 [|b1 [|b2 [|b3 r]]]]; try reflexivity.
  simpl in H. lia.
Qed.

(** ** One record *)

Lemma read_entry_frame (buf : list Z) (i : nat) (f : Frame) (r : list Z) :
  frame_ok f -> skipn i buf = frame_bytes f ++ r ->
  read_entry buf i = inl (frame_entry f, (i + length (frame_bytes f))%nat).
Proof.
  destruct f as [t w d]. unfold frame_ok, frame_bytes, frame_entry. cbn [ftag flen fdata].
  intros (Ht & Hw & Hl) H0.
  assert (H : skipn i buf = 0x7E :: Z.of_nat (length t) :: t ++ w ++ d ++ 0x7B :: r)
    by (rewrite H0; simpl; rewrite <- !app_assoc; reflexivity).
  clear H0. unfold read_entry.
  rewrite (at_cons _ _ _ _ H). cbn [bind]. rewrite Z.eqb_refl. cbn [negb].
  pose proof (skip_step _ _ _ _ H) as H1.
  rewrite (at_cons _ _ _ _ H1). cbn [bind].
  pose proof (skip_step _ _ _ _ H1) as H2.
  unfold get_string. rewrite Nat2Z.id, (get_chars_app _ _ _ _ H2). cbn [bind].
  pose proof (skip_app _ _ _ _ H2) as H3.
  rewrite (get_u32_le_app _ _ _ _ H3 Hw). cbn [bind]. rewrite Hl. unfold u32_pred.
  rewrite (proj2 (Z.eqb_neq _ _)) by lia. cbn [bind].
  replace (Z.to_nat (Z.of_nat (S (length d)) - 1)) with (length d) by lia.
  pose proof (skip_app _ _ _ _ H3) as H4. rewrite Hw in H4.
  rewrite (read_bytes_app _ _ _ _ H4). cbn [bind].
  pose proof (skip_app _ _ _ _ H4) as H5.
  rewrite (at_cons _ _ _ _ H5). cbn [bind]. rewrite Z.eqb_refl. cbn [negb].
  do 2 f_equal. cbn [length]. rewrite !length_app. cbn [length]. lia.
Qed.

Lemma read_entry_bad (buf : list Z) (i : nat) (r : list Z) (err : failure) :
  skipn i buf = r -> bad_record i r err -> read_entry buf i = inr err.
Proof.
  intros H B. revert H. unfold read_entry.
  destruct B as [h r Hh | | n r Hr | n t w r Ht Hw Hl | n t w r Ht Hw Hr
                | n t w d b r Ht Hw Hl Hb]; intros H;
    rewrite (at_cons _ _ _ _ H); cbn [bind].
  - rewrite (proj2 (Z.eqb_neq _ _) Hh). reflexivity.
  - rewrite Z.eqb_refl. cbn [negb].
    rewrite (at_nil _ _ (skip_step _ _ _ _ H)). reflexivity.
  - rewrite Z.eqb_refl. cbn [negb].
    pose proof (skip_step _ _ _ _ H) as H1. rewrite (at_cons _ _ _ _ H1). cbn [bind].
    pose proof (skip_step _ _ _ _ H1) as H2. unfold get_string.
    destruct (Nat.lt_ge_cases (length r) (Z.to_nat n)) as [Hs | Hs].
    + rewrite get_chars_short; [reflexivity|]. rewrite H2. exact Hs.
    + rewrite <- (firstn_skipn (Z.to_nat n) r) in H2.
      pose proof (get_chars_app _ _ _ _ H2) as G.
      pose proof (skip_app _ _ _ _ H2) as H3.
      rewrite length_firstn, Nat.min_l in G, H3 by exact Hs.
      rewrite G. cbn [bind]. rewrite get_u32_le_short; [reflexivity|].
      rewrite H3, length_skipn. lia.
  - rewrite Z.eqb_refl. cbn [negb].
    pose proof (skip_step _ _ _ _ H) as H1. rewrite (at_cons _ _ _ _ H1). cbn [bind].
    pose proof (skip_step _ _ _ _ H1) as H2. unfold get_string.
    rewrite <- Ht, (get_chars_app _ _ _ _ H2). cbn [bind].
    rewrite (get_u32_le_app _ _ _ _ (skip_app _ _ _ _ H2) Hw). cbn [bind].
    rewrite Hl. reflexivity.
  - rewrite Z.eqb_refl. cbn [negb].
    pose proof (skip_step _ _ _ _ H) as H1. rewrite (at_cons _ _ _ _ H1). cbn [bind].
    pose proof (skip_step _ _ _ _ H1) as H2. unfold get_string.
    rewrite <- Ht, (get_chars_app _ _ _ _ H2). cbn [bind].
    pose proof (skip_app _ _ _ _ H2) as H3.
    rewrite (get_u32_le_app _ _ _ _ H3 Hw). cbn [bind]. unfold u32_pred.
    rewrite (proj2 (Z.eqb_neq _ _)) by lia. cbn [bind].
    pose proof (skip_app _ _ _ _ H3) as H4. rewrite Hw in H4.
    destruct (Nat.lt_ge_cases (length r) (Z.to_nat (le32_value w - 1))) as [Hs | Hs].
    + rewrite read_bytes_short; [reflexivity|]. rewrite H4. exact Hs.
    + replace (Z.to_nat (le32_value w - 1)) with (length r) by lia.
      assert (H5 : skipn (S (S i) + length t + 4) buf = r ++ [])
        by (rewrite app_nil_r; exact H4).
      rewrite (read_bytes_app _ _ _ _ H5). cbn [bind].
      rewrite (at_nil _ _ (skip_app _ _ _ _ H5)). reflexivity.
  - rewrite Z.eqb_refl. cbn [negb].
    pose proof (skip_step _ _ _ _ H) as H1. rewrite (at_cons _ _ _ _ H1). cbn [bind].
    pose proof (skip_step _ _ _ _ H1) as H2. unfold get_string.
    rewrite <- Ht, (get_chars_app _ _ _ _ H2). cbn [bind].
    pose proof (skip_app _ _ _ _ H2) as H3.
    rewrite (get_u32_le_app _ _ _ _ H3 Hw). cbn [bind]. rewrite Hl. unfold u32_pred.
    rewrite (proj2 (Z.eqb_neq _ _)) by lia. cbn [bind].
    replace (Z.to_nat (Z.of_nat (S (length d)) - 1)) with (length d) by lia.
    pose proof (skip_app _ _ _ _ H3) as H4. rewrite Hw in H4.
    rewrite (read_bytes_app _ _ _ _ H4). cbn [bind].
    rewrite (at_cons _ _ _ _ (skip_app _ _ _ _ H4)). cbn [bind].
    rewrite (proj2 (Z.eqb_neq _ _) Hb). cbn [negb]. do 2 f_equal. lia.
Qed.

(** ** The loop *)

Lemma frame_bytes_length (f : Frame) : (0 < length (frame_bytes f))%nat.
Proof. unfold frame_bytes. cbn [length]. lia. Qed.

Lemma bad_record_nonempty (off : nat) (r : list Z) (err : failure) :
  bad_record off r err -> r <> [].
Proof. intros B; destruct B; intros E; discriminate E. Qed.

Lemma loop_frames (fuel : nat) (buf : list Z) (i : nat) (fs : list Frame) :
  Forall frame_ok fs -> skipn i buf = flat_map frame_bytes fs ->
  (length (skipn i buf) < fuel)%nat ->
  entries_loop fuel buf i = inl (map frame_entry fs).
Proof.
  revert fuel i; induction fs as [|f fs IH]; intros fuel i Hok H Hf;
    (destruct fuel as [|fuel]; [lia|]); cbn [entries_loop].
  - apply skipn_all_iff in H. rewrite (proj2 (Nat.ltb_ge _ _) H). reflexivity.
  - inversion Hok as [|? ? Hf0 Hok']; subst. cbn [flat_map] in H.
    pose proof (frame_bytes_length f) as Lf.
    assert (Hi : (i < length buf)%nat).
    { pose proof (length_skipn i buf) as L. rewrite H, length_app in L. lia. }
    rewrite (proj2 (Nat.ltb_lt _ _) Hi).
    rewrite (read_entry_frame _ _ _ _ Hf0 H). cbn [bind].
    pose proof (skip_app _ _ _ _ H) as H'.
    rewrite (IH fuel _ Hok' H'); [reflexivity|].
    rewrite H'. rewrite H, length_app in Hf. lia.
Qed.

Lemma loop_bad (fuel : nat) (buf : list Z) (i : nat) (fs : list Frame)
    (rest : list Z) (err : failure) :
  Forall frame_ok fs -> skipn i buf = flat_map frame_bytes fs ++ rest ->
  bad_record (i + length (flat_map frame_bytes fs)) rest err ->
  (length (skipn i buf) < fuel)%nat ->
  entries_loop fuel buf i = inr err.
Proof.
  revert fuel i; induction fs as [|f fs IH]; intros fuel i Hok H B Hf;
    (destruct fuel as [|fuel]; [lia|]); cbn [entries_loop].
  - cbn [flat_map app] in H. cbn [flat_map length] in B. rewrite Nat.add_0_r in B.
    pose proof (bad_record_nonempty _ _ _ B) as Ne.
    assert (Hi : (i < length buf)%nat).
    { pose proof (length_skipn i buf) as L. rewrite H in L.
      destruct rest; [congruence|]. simpl in L. lia. }
    rewrite (proj2 (Nat.ltb_lt _ _) Hi), (read_entry_bad _ _ _ _ H B). reflexivity.
  - inversion Hok as [|? ? Hf0 Hok']; subst. cbn [flat_map] in H, B.
    rewrite <- app_assoc in H. rewrite length_app, Nat.add_assoc in B.
    pose proof (frame_bytes_length f) as Lf.
    assert (Hi : (i < length buf)%nat).
    { pose proof (length_skipn i buf) as L. rewrite H, length_app in L. lia. }
    rewrite (proj2 (Nat.ltb_lt _ _) Hi).
    rewrite (read_entry_frame _ _ _ _ Hf0 H). cbn [bind].
    pose proof (skip_app _ _ _ _ H) as H'.
    rewrite (IH fuel _ Hok' H' B); [reflexivity|].
    rewrite H'. rewrite H, length_app in Hf. lia.
Qed.

(** ** Splitting a byte buffer into records *)

Lemma le32_nonneg (w : list Z) : Forall is_byte w -> 0 <= le32_value w.
Proof.
  intros H. assert (N : forall k, 0 <= nth k w 0).
  { intros k. destruct (Nat.lt_ge_cases k (length w)) as [Hk | Hk].
    - rewrite Forall_nth in H. apply (H k 0 Hk).
    - rewrite nth_overflow by exact Hk. lia. }
  unfold le32_value. repeat (apply Z.lor_nonneg; split). all: apply Z.shiftl_nonneg, N.
Qed.

Lemma record_split (off : nat) (r : list Z) :
  Forall is_byte r -> r <> [] ->
  (exists f r', frame_ok f /\ r = frame_bytes f ++ r') \/
  (exists err, bad_record off r err).
Proof.
  intros Hb Hne. destruct r as [|h r1]; [congruence|].
  destruct (Z.eq_dec h 0x7E) as [-> | Hh]; [|right; eexists; apply bad_header; exact Hh].
  destruct r1 as [|n r2]; [right; eexists; apply bad_no_tag_length|].
  destruct (Nat.lt_ge_cases (length r2) (Z.to_nat n + 4)) as [Hs | Hs];
    [right; eexists; apply bad_short_tag; exact Hs|].
  pose proof (firstn_skipn (Z.to_nat n) r2) as E2.
  remember (firstn (Z.to_nat n) r2) as t eqn:Et.
  remember (skipn (Z.to_nat n) r2) as r3 eqn:Er3.
  assert (Ht : length t = Z.to_nat n) by (rewrite Et, length_firstn; lia).
  assert (L3 : (4 <= length r3)%nat) by (rewrite Er3, length_skipn; lia).
  clear Et Er3. subst r2.
  pose proof (firstn_skipn 4 r3) as E3.
  remember (firstn 4 r3) as w eqn:Ew.
  remember (skipn 4 r3) as r4 eqn:Er4.
  assert (Hw : length w = 4%nat) by (rewrite Ew, length_firstn; lia).
  clear Ew Er4 L3 Hs. subst r3.
  inversion Hb as [|? ? _ Hb1]; subst. inversion Hb1 as [|? ? Hn Hb2]; subst.
  apply Forall_app in Hb2 as [_ Hb3]. apply Forall_app in Hb3 as [Hbw _].
  pose proof (le32_nonneg w Hbw) as Hl0.
  destruct (Z.eq_dec (le32_value w) 0) as [Hz | Hz];
    [right; eexists; apply bad_zero_length; assumption|].
  destruct (Nat.lt_ge_cases (length r4) (Z.to_nat (le32_value w))) as [Hp | Hp];
    [right; eexists; apply bad_short_payload; assumption|].
  pose proof (firstn_skipn (Z.to_nat (le32_value w) - 1) r4) as E4.
  remember (firstn (Z.to_nat (le32_value w) - 1) r4) as d eqn:Ed.
  remember (skipn (Z.to_nat (le32_value w) - 1) r4) as r5 eqn:Er5.
  assert (Hd : length d = (Z.to_nat (le32_value w) - 1)%nat)
    by (rewrite Ed, length_firstn; lia).
  assert (L5 : (1 <= length r5)%nat) by (rewrite Er5, length_skipn; lia).
  clear Ed Er5. subst r4.
  destruct r5 as [|b r5]; [simpl in L5; lia|].
  assert (Hv : le32_value w = Z.of_nat (S (length d))) by lia.
  destruct (Z.eq_dec b 0x7B) as [-> | Hb'].
  - left. exists (mkFrame t w d), r5. split.
    + unfold frame_ok; cbn [ftag flen fdata]. unfold is_byte in Hn.
      split; [lia|]. split; assumption.
    + unfold frame_bytes; cbn [ftag flen fdata].
      rewrite Ht, Z2Nat.id by (unfold is_byte in Hn; lia).
      simpl. rewrite <- !app_assoc. reflexivity.
  - right. eexists. apply bad_footer; assumption.
Qed.

Lemma frames_split (off : nat) (r : list Z) :
  Forall is_byte r ->
  exists fs rest, Forall frame_ok fs /\ r = flat_map frame_bytes fs ++ rest /\
    (rest = [] \/ exists err, bad_record (off + length (flat_map frame_bytes fs)) rest err).
Proof.
  remember (S (length r)) as m eqn:Em. assert (Hm : (length r < m)%nat) by lia. clear Em.
  revert off r Hm. induction m as [|m IH]; intros off r Hm Hb; [lia|].
  destruct r as [|x r'].
  - exists [], []. split; [constructor|]. split; [reflexivity | left; reflexivity].
  - destruct (record_split off (x :: r') Hb ltac:(discriminate)) as
        [(f & r2 & Hf & E) | (err & B)].
    + pose proof (frame_bytes_length f) as Lf.
      assert (L2 : (length r2 < m)%nat)
        by (apply (f_equal (@length Z)) in E; rewrite length_app in E; simpl in *; lia).
      rewrite E in Hb. apply Forall_app in Hb as [_ Hb2].
      destruct (IH (off + length (frame_bytes f))%nat r2 L2 Hb2)
        as (fs & rest & Hfs & E2 & Hr).
      exists (f :: fs), rest. split; [constructor; assumption|].
      cbn [flat_map]. split; [rewrite E, E2, app_assoc; reflexivity|].
      rewrite length_app, Nat.add_assoc. exact Hr.
    + exists [], (x :: r'). split; [constructor|]. split; [reflexivity|].
      right. exists err. cbn [flat_map length]. rewrite Nat.add_0_r. exact B.
Qed.

(** ** Decoding failures *)

(** C2, counterexample: a record whose header and footer bytes are right and
    which lies wholly inside the buffer, but whose length field is 0. The
    decoder fails with a subtraction overflow at [data_length - 1], which
    is not a header, footer or exhaustion failure. *)
Lemma decode_zero_length_counterexample :
  generate_entries [0x7E; 0; 0; 0; 0; 0; 0x7B] = inr SubtractOverflow.
Proof. vm_compute. reflexivity. Qed.

(** C2, amended: well-formed records decode to their entries; a run of
    well-formed records followed by a malformed record fails, with no
    output, with exactly the failure [bad_record] gives: [InvalidHeader]
    at the record's offset for a wrong header byte, [IndexOutOfBounds] when
    the buffer ends inside the record, [SubtractOverflow] when the length
    field is 0, and [InvalidFooter] at the footer's offset for a wrong
    footer byte. Every byte buffer is of one of these two shapes. *)
Theorem decode_fails_exactly_on_bad_record :
  (forall fs, Forall frame_ok fs ->
     generate_entries (flat_map frame_bytes fs) = inl (map frame_entry fs)) /\
  (forall fs rest err, Forall frame_ok fs ->
     bad_record (length (flat_map frame_bytes fs)) rest err ->
     generate_entries (flat_map frame_bytes fs ++ rest) = inr err) /\
  (forall buf, Forall is_byte buf ->
     exists fs rest, Forall frame_ok fs /\ buf = flat_map frame_bytes fs ++ rest /\
       (rest = [] \/ exists err, bad_record (length (flat_map frame_bytes fs)) rest err)).
Proof.
  split; [|split].
  - intros fs Hok. unfold generate_entries.
    apply loop_frames; [exact Hok | reflexivity | cbn [skipn]; lia].
  - intros fs rest err Hok B. unfold generate_entries.
    apply (loop_bad _ _ 0 fs rest err Hok eq_refl B). cbn [skipn]. lia.
  - intros buf Hb. exact (frames_split 0 buf Hb).
Qed.

(** Witness: a record with tag "A" and payload [9], then a record whose
    length field is 0. *)
Lemma decode_fails_exactly_on_bad_record_witness :
  generate_entries (flat_map frame_bytes [mkFrame [65] [2; 0; 0; 0] [9]] ++
                    [0x7E; 0; 0; 0; 0; 0]) = inr SubtractOverflow.
Proof.
  apply (proj1 (proj2 decode_fails_exactly_on_bad_record)).
  - constructor; [|constructor]. unfold frame_ok; cbn [ftag flen fdata length].
    split; [lia | split; reflexivity].
  - exact (bad_zero_length 9 0 [] [0; 0; 0; 0] [] eq_refl eq_refl eq_refl).
Defined.

(** * Further properties of the program *)

(** ** Little-endian fields *)

Lemma byte_lane (n k m : Z) : 0 <= k -> 0 <= m ->
  Z.testbit (Z.shiftl (Z.land (Z.shiftr n k) 255) k) m =
  ((k <=? m) && (m <? k + 8)) && Z.testbit n m.
Proof.
  intros Hk Hm. rewrite Z.shiftl_spec by lia.
  destruct (Z.leb_spec k m) as [H|H].
  - rewrite Z.land_spec, Z.shiftr_spec by lia.
    change 255 with (Z.ones 8). rewrite Z.testbit_ones by lia.
    replace (m - k + k) with m by lia.
    destruct (Z.leb_spec 0 (m - k)); [|lia].
    destruct (Z.ltb_spec (m - k) 8), (Z.ltb_spec m (k + 8)); simpl;
      try lia; apply andb_comm.
  - rewrite Z.testbit_neg_r by lia. reflexivity.
Qed.

Lemma le32_value_mk_u32_le (n : Z) : le32_value (mk_u32_le n) = n mod 2 ^ 32.
Proof.
  apply Z.bits_inj'. intros m Hm. unfold le32_value, mk_u32_le. cbn [nth].
  rewrite !Z.lor_spec, !byte_lane by lia.
  destruct (Z.ltb_spec m 32) as [H|H];
    [rewrite Z.mod_pow2_bits_low by lia | rewrite Z.mod_pow2_bits_high by lia];
    destruct (Z.testbit n m); rewrite ?andb_false_r, ?andb_true_r; try reflexivity;
    repeat match goal with
           | |- context [?a <=? ?b] => destruct (Z.leb_spec a b)
           | |- context [?a <? ?b] => destruct (Z.ltb_spec a b)
           end; simpl; try reflexivity; lia.
Qed.

Lemma mk_u32_le_of_bytes (b0 b1 b2 b3 : Z) :
  0 <= b0 < 256 -> 0 <= b1 < 256 -> 0 <= b2 < 256 -> 0 <= b3 < 256 ->
  mk_u32_le (b0 + 256 * b1 + 65536 * b2 + 16777216 * b3) = [b0; b1; b2; b3].
Proof.
  intros H0 H1 H2 H3. unfold mk_u32_le.
  change 255 with (Z.ones 8).
  rewrite !Z.land_ones, !Z.shiftr_div_pow2 by lia.
  change (2 ^ 8) with 256. change (2 ^ 0) with 1. change (2^16) with 65536. change (2^24) with 16777216.
  f_equal; [|f_equal; [|f_equal; [|f_equal]]]; Z.div_mod_to_equations; lia.
Qed.

Lemma le32_value_bytes (b0 b1 b2 b3 : Z) :
  0 <= b0 < 256 -> 0 <= b1 < 256 -> 0 <= b2 < 256 -> 0 <= b3 < 256 ->
  le32_value [b0; b1; b2; b3] = b0 + 256 * b1 + 65536 * b2 + 16777216 * b3.
Proof.
  intros H0 H1 H2 H3. rewrite <- (mk_u32_le_of_bytes b0 b1 b2 b3 H0 H1 H2 H3).
  rewrite le32_value_mk_u32_le. apply Z.mod_small. lia.
Qed.

Lemma skipn_length_app (p r : list Z) : skipn (length p) (p ++ r) = r.
Proof. induction p as [|x p IH]; [reflexivity | exact IH]. Qed.

Lemma firstn_length_app (p r : list Z) : firstn (length p) (p ++ r) = p.
Proof. induction p as [|x p IH]; [reflexivity | simpl; rewrite IH; reflexivity]. Qed.


Lemma num_pos_scan_letters (p r : list Z) (i : nat) :
  Forall (fun c => is_digit c = false) p ->
  num_pos_scan (p ++ r) i 0 0 = num_pos_scan r (i + length p) 0 0.
Proof.
  intros H. revert i; induction H as [|c p Hc _ IH]; intros i.
  - rewrite Nat.add_0_r. reflexivity.
  - cbn [app num_pos_scan length]. rewrite Hc. simpl. rewrite IH, Nat.add_succ_r. reflexivity.
Qed.

Lemma num_pos_scan_digits (ds r : list Z) (i st : nat) :
  (0 < st)%nat -> Forall (fun c => is_digit c = true) ds ->
  num_pos_scan (ds ++ r) i st 0 = num_pos_scan r (i + length ds) st 0.
Proof.
  intros Hst H. revert i; induction H as [|c ds Hc _ IH]; intros i.
  - rewrite Nat.add_0_r. reflexivity.
  - cbn [app num_pos_scan length]. rewrite Hc.
    rewrite (proj2 (Nat.eqb_neq st 0)) by lia. rewrite IH, Nat.add_succ_r. reflexivity.
Qed.

Lemma num_pos_scan_done (r : list Z) (i st en : nat) :
  (0 < st)%nat -> (0 < en)%nat -> num_pos_scan r i st en = (st, en).
Proof.
  intros Hs He. revert i; induction r as [|c r IH]; intros i; [reflexivity|].
  cbn [num_pos_scan]. rewrite (proj2 (Nat.eqb_neq st 0)) by lia.
  rewrite (proj2 (Nat.eqb_neq en 0)) by lia. rewrite andb_false_r.
  destruct (is_digit c); apply IH.
Qed.

Lemma get_u32_le_closed (buf : list Z) (i : nat) :
  get_u32_le buf i =
  if Nat.ltb (length buf) (i + 4) then inr IndexOutOfBounds
  else inl (le32_value (firstn 4 (skipn i buf)), (i + 4)%nat).
Proof.
  pose proof (length_skipn i buf) as L.
  destruct (skipn i buf) as [|b0 [|b1 [|b2 [|b3 r]]]] eqn:E;
    try (rewrite get_u32_le_short by (rewrite E; simpl; lia);
         simpl in L; rewrite (proj2 (Nat.ltb_lt _ _)) by lia; reflexivity).
  rewrite (get_u32_le_app buf i [b0; b1; b2; b3] r E eq_refl).
  simpl in L. rewrite (proj2 (Nat.ltb_ge _ _)) by lia. reflexivity.
Qed.

Lemma Forall_skipn_byte (buf : list Z) (i : nat) :
  Forall is_byte buf -> Forall is_byte (skipn i buf).
Proof.
  intros H. rewrite <- (firstn_skipn i buf) in H. apply Forall_app in H. apply H.
Qed.

(** [get_u32_le buf i] reads the four bytes at [i..i+4] and advances the
    index by four; it panics with an out-of-bounds index exactly when
    fewer than four bytes are left. *)
Theorem get_u32_le_eq (buf : list Z) (i : nat) :
  get_u32_le buf i =
  if Nat.ltb (length buf) (i + 4) then inr IndexOutOfBounds
  else inl (le32_value (firstn 4 (skipn i buf)), (i + 4)%nat).
Proof. exact (get_u32_le_closed buf i). Qed.

(** Reading back the four bytes [mk_u32_le n] wrote, at any offset, gives
    [n] modulo 2^32. *)
Theorem get_u32_le_mk_u32_le (p r : list Z) (n : Z) :
  get_u32_le (p ++ mk_u32_le n ++ r) (length p) = inl (n mod 2 ^ 32, (length p + 4)%nat).
Proof.
  rewrite (get_u32_le_app _ _ (mk_u32_le n) r (skipn_length_app p _) eq_refl).
  rewrite le32_value_mk_u32_le. reflexivity.
Qed.

(** On a byte buffer, a value [get_u32_le] reads is below 2^32, and
    [mk_u32_le] writes it back as the same four bytes. *)
Theorem mk_u32_le_get_u32_le (buf : list Z) (i j : nat) (v : Z) :
  Forall is_byte buf -> get_u32_le buf i = inl (v, j) ->
  j = (i + 4)%nat /\ 0 <= v < 2 ^ 32 /\ mk_u32_le v = firstn 4 (skipn i buf).
Proof.
  intros Hb H. pose proof (Forall_skipn_byte buf i Hb) as Hs.
  destruct (skipn i buf) as [|b0 [|b1 [|b2 [|b3 r]]]] eqn:E;
    try (rewrite get_u32_le_short in H by (rewrite E; simpl; lia); discriminate H).
  rewrite (get_u32_le_app buf i [b0; b1; b2; b3] r E eq_refl) in H.
  apply inl_inj in H. injection H as <- <-.
  inversion Hs as [|? ? B0 Hs1]; inversion Hs1 as [|? ? B1 Hs2];
    inversion Hs2 as [|? ? B2 Hs3]; inversion Hs3 as [|? ? B3 _]; subst.
  unfold is_byte in *. rewrite le32_value_bytes by assumption.
  split; [reflexivity|]. split; [lia|].
  rewrite mk_u32_le_of_bytes by assumption. reflexivity.
Qed.

Lemma mk_u32_le_get_u32_le_witness :
  (9 = 5 + 4)%nat /\ 0 <= 2 < 2 ^ 32 /\
  mk_u32_le 2 = firstn 4 (skipn 5 [0; 0; 0; 0; 0; 2; 0; 0; 0]).
Proof.
  apply (mk_u32_le_get_u32_le [0; 0; 0; 0; 0; 2; 0; 0; 0] 5 9 2);
    [repeat (apply Forall_cons; [unfold is_byte; lia|]); apply Forall_nil | reflexivity].
Defined.

(** ** Writing and reading back records *)

Lemma char_bytes_ascii (t : list Z) :
  Forall (fun b => 0 <= b < 128) t -> flat_map char_bytes t = t.
Proof.
  induction 1 as [|b t Hb _ IH]; [reflexivity|].
  cbn [flat_map]. unfold char_bytes at 1.
  rewrite (proj2 (Z.ltb_lt b 128)) by lia. simpl. rewrite IH. reflexivity.
Qed.

(** The frame [save_new_items_file] writes for one entry. *)
Lemma encode_entry_frame (e : Entry) :
  (length (tag e) < 256)%nat ->
  encode_entry e = frame_bytes (mkFrame (tag e) (mk_u32_le (Z.of_nat (length (data e)) + 1)) (data e)).
Proof.
  intros H. unfold encode_entry, frame_bytes. cbn [ftag flen fdata].
  rewrite Z.mod_small by lia. reflexivity.
Qed.

(** Records whose tags are ASCII and shorter than 256 bytes, and whose
    payload length plus one fits in a [u32], come back unchanged when the
    bytes [save_new_items_file] writes are read by [generate_entries]. *)
Theorem save_new_items_file_roundtrip (es : list Entry) :
  Forall (fun e => Forall (fun b => 0 <= b < 128) (tag e) /\ (length (tag e) < 256)%nat /\
                   Z.of_nat (length (data e)) + 1 < 2 ^ 32) es ->
  generate_entries (save_new_items_file es) = inl es.
Proof.
  intros H.
  set (fr := fun e => mkFrame (tag e) (mk_u32_le (Z.of_nat (length (data e)) + 1)) (data e)).
  assert (Hb : save_new_items_file es = flat_map frame_bytes (map fr es)).
  { unfold save_new_items_file. induction H as [|e es [_ [Ht _]] _ IH]; [reflexivity|].
    cbn [flat_map map]. rewrite IH, encode_entry_frame by exact Ht. reflexivity. }
  assert (Hok : Forall frame_ok (map fr es)).
  { apply Forall_map. eapply Forall_impl; [|exact H]. intros e (_ & Ht & Hd).
    unfold frame_ok, fr. cbn [ftag flen fdata]. split; [exact Ht|].
    split; [reflexivity|]. rewrite le32_value_mk_u32_le, Z.mod_small by lia. lia. }
  assert (He : map frame_entry (map fr es) = es).
  { rewrite map_map. rewrite <- (map_id es) at 2. apply map_ext_in.
    intros e Hin. rewrite Forall_forall in H. destruct (H e Hin) as (Ht & _).
    unfold frame_entry, fr. cbn [ftag fdata]. rewrite char_bytes_ascii by exact Ht.
    destruct e; reflexivity. }
  unfold generate_entries.
  replace (inl es) with (@inl (list Entry) failure (map frame_entry (map fr es)))
    by (rewrite He; reflexivity).
  apply loop_frames; [exact Hok | rewrite Hb; reflexivity | simpl; lia].
Qed.

Lemma save_new_items_file_roundtrip_witness :
  generate_entries (save_new_items_file pike_input) = inl pike_input.
Proof.
  apply save_new_items_file_roundtrip. unfold pike_input.
  repeat constructor; cbn; lia.
Defined.

(** ** Item identities and renumbered tags *)

Lemma item_id_loop_cut (tg : list Z) (spray : bool) (rest : list Z) (i nc : nat) :
  item_id_loop tg spray rest i nc =
  match id_cut spray rest nc with Some k => firstn (i + k) tg | None => tg end.
Proof.
  revert i nc; induction rest as [|c rest IH]; intros i nc; [reflexivity|].
  cbn [item_id_loop id_cut].
  destruct (Nat.eqb nc 0).
  - destruct (is_digit c); rewrite IH;
      destruct (id_cut spray rest _); simpl; rewrite ?Nat.add_succ_r; reflexivity.
  - destruct (negb (is_digit c) || (spray && Nat.leb 2 nc)).
    + rewrite Nat.add_0_r. reflexivity.
    + rewrite IH. destruct (id_cut spray rest _); simpl; rewrite ?Nat.add_succ_r; reflexivity.
Qed.

Lemma id_cut_firstn (spray : bool) (rest : list Z) (nc k : nat) :
  id_cut spray rest nc = Some k -> id_cut spray (firstn k rest) nc = None.
Proof.
  revert nc k; induction rest as [|c rest IH]; intros nc k H; [discriminate|].
  cbn [id_cut] in H. destruct (Nat.eqb nc 0) eqn:E0.
  - destruct (id_cut spray rest _) as [k'|] eqn:E; [|discriminate].
    injection H as <-. cbn [firstn id_cut]. rewrite E0, (IH _ _ E). reflexivity.
  - destruct (negb (is_digit c) || (spray && Nat.leb 2 nc)) eqn:Ec.
    + injection H as <-. reflexivity.
    + destruct (id_cut spray rest _) as [k'|] eqn:E; [|discriminate].
      injection H as <-. cbn [firstn id_cut]. rewrite E0, Ec, (IH _ _ E). reflexivity.
Qed.

Lemma id_cut_skip (spray : bool) (p r : list Z) :
  Forall (fun c => is_digit c = false) p ->
  id_cut spray (p ++ r) 0 = option_map (Nat.add (length p)) (id_cut spray r 0).
Proof.
  induction 1 as [|c p Hc _ IH].
  - cbn [app length]. destruct (id_cut spray r 0); reflexivity.
  - cbn [app id_cut length]. rewrite Nat.eqb_refl, Hc, IH.
    destruct (id_cut spray r 0); reflexivity.
Qed.

Lemma starts_with_firstn (s p : list Z) (k : nat) :
  (length p <= k)%nat -> starts_with (firstn k s) p = starts_with s p.
Proof.
  revert s k; induction p as [|y p IH]; intros s k Hk; [destruct (firstn k s), s; reflexivity|].
  destruct k as [|k]; [simpl in Hk; lia|].
  destruct s as [|x s]; [reflexivity|]. cbn [firstn starts_with].
  rewrite IH by (simpl in Hk; lia). reflexivity.
Qed.

Lemma starts_with_length (s p : list Z) : starts_with s p = true -> (length p <= length s)%nat.
Proof.
  intros H. apply starts_with_spec in H as [r ->]. rewrite length_app. lia.
Qed.

(** [get_item_id] returns a prefix of the tag, and applied to its own
    result returns it unchanged. *)
Theorem get_item_id_idempotent (t : list Z) :
  get_item_id (get_item_id t) = get_item_id t /\ exists r, t = get_item_id t ++ r.
Proof.
  split; [|apply get_item_id_prefix].
  set (spray := starts_with t (str "spraycan")).
  assert (Hid : get_item_id t = match id_cut spray t 0 with Some k => firstn k t | None => t end)
    by (unfold get_item_id; rewrite item_id_loop_cut; reflexivity).
  rewrite Hid. destruct (id_cut spray t 0) as [k|] eqn:Ek; [|exact Hid].
  assert (Hs : starts_with (firstn k t) (str "spraycan") = spray).
  { destruct (Nat.le_gt_cases 8 k) as [Hk | Hk].
    - apply starts_with_firstn. exact Hk.
    - destruct spray eqn:Hsp.
      + exfalso. apply starts_with_spec in Hsp as [r Hr].
        rewrite Hr, id_cut_skip in Ek by (repeat constructor).
        destruct (id_cut true r 0); simpl in Ek; [|discriminate].
        injection Ek as <-. simpl in Hk. lia.
      + destruct (starts_with (firstn k t) (str "spraycan")) eqn:E; [|reflexivity].
        apply starts_with_length in E. rewrite length_firstn in E. simpl in E. lia. }
  unfold get_item_id. rewrite Hs, item_id_loop_cut, (id_cut_firstn _ _ _ _ Ek).
  reflexivity.
Qed.

(** On a tag made of a non-empty run without digits, a non-empty run of
    digits, a non-digit and any rest, [tag_set_new_count] replaces the
    digit run by the decimal form of [n] and keeps the rest. *)
Theorem tag_set_new_count_first_run (p ds s : list Z) (c : Z) (n : nat) :
  p <> [] -> Forall (fun x => is_digit x = false) p ->
  ds <> [] -> Forall (fun x => is_digit x = true) ds ->
  is_digit c = false ->
  tag_set_new_count (p ++ ds ++ c :: s) n = p ++ decimal n ++ c :: s.
Proof.
  intros Hp Hpl Hds Hdd Hc. unfold tag_set_new_count.
  rewrite num_pos_scan_letters by exact Hpl. cbn [Nat.add].
  destruct ds as [|d ds]; [congruence|].
  inversion Hdd as [|? ? Hd Hdd']; subst.
  assert (Lp : (0 < length p)%nat) by (destruct p; [congruence | simpl; lia]).
  cbn [app num_pos_scan]. rewrite Hd, Nat.eqb_refl.
  rewrite num_pos_scan_digits by assumption. cbn [num_pos_scan]. rewrite Hc.
  rewrite (proj2 (Nat.ltb_lt 0 (length p))) by exact Lp. simpl Nat.eqb. cbn [andb].
  rewrite num_pos_scan_done by lia.
  rewrite firstn_length_app.
  replace (S (length p) + length ds)%nat with (length (p ++ d :: ds))
    by (rewrite length_app; simpl; lia).
  change (d :: ds ++ c :: s) with ((d :: ds) ++ c :: s).
  rewrite (app_assoc p (d :: ds) (c :: s)), skipn_length_app, <- ?app_assoc. reflexivity.
Qed.

Lemma tag_set_new_count_first_run_witness :
  tag_set_new_count (str "sausagesx" ++ str "11" ++ 84 :: str "ransform") 7 =
  str "sausagesx" ++ decimal 7 ++ 84 :: str "ransform".
Proof.
  apply tag_set_new_count_first_run;
    [discriminate | repeat constructor | discriminate | repeat constructor | reflexivity].
Defined.

(** ** The renaming pass leaves some tags alone *)





(** ** The debug listing *)

Lemma format_entry_eq (e : Entry) :
  format_entry e =
  if negb (contains counting_tags (tag e)) || Nat.leb 9 (length (data e))
  then inl (listing_line e) else inr IndexOutOfBounds.
Proof.
  unfold format_entry, listing_line. destruct (contains counting_tags (tag e)); [|reflexivity].
  rewrite get_u32_le_closed. cbn [negb orb Nat.add].
  destruct (Nat.leb_spec 9 (length (data e))).
  - rewrite (proj2 (Nat.ltb_ge _ _)) by lia. reflexivity.
  - rewrite (proj2 (Nat.ltb_lt _ _)) by lia. reflexivity.
Qed.

Lemma formatted_entries_closed (es : list Entry) :
  get_formatted_entries es =
  if forallb (fun e => negb (contains counting_tags (tag e)) || Nat.leb 9 (length (data e))) es
  then inl (map listing_line es) else inr IndexOutOfBounds.
Proof.
  unfold get_formatted_entries.
  induction es as [|e es IH]; [reflexivity|]. cbn [mapM forallb map].
  rewrite format_entry_eq.
  destruct (negb (contains counting_tags (tag e)) || Nat.leb 9 (length (data e))); [|reflexivity].
  cbn [bind andb]. rewrite IH. destruct (forallb _ es); reflexivity.
Qed.

(** [get_formatted_entries] panics with an out-of-bounds index exactly
    when a record with a tag of [counting_tags] has a payload shorter than
    9 bytes; otherwise each record gives one line: the tag, followed for a
    counting tag by the value of payload bytes 5..9 in parentheses. *)
Theorem get_formatted_entries_eq (es : list Entry) :
  get_formatted_entries es =
  if forallb (fun e => negb (contains counting_tags (tag e)) || Nat.leb 9 (length (data e))) es
  then inl (map listing_line es) else inr IndexOutOfBounds.
Proof. exact (formatted_entries_closed es). Qed.

Lemma counting_tags_ids (t : list Z) :
  contains counting_tags t = true -> exists g, In g item_counts /\ tagid g = t.
Proof.
  intros H. unfold contains in H. apply existsb_exists in H as (y & Hy & Hyt).
  apply list_eqb_eq in Hyt. subst y.
  assert (E : counting_tags = firstn 25 (map tagid item_counts)) by (vm_compute; reflexivity).
  rewrite E in Hy. assert (Hin : In t (map tagid item_counts)).
  { rewrite <- (firstn_skipn 25 (map tagid item_counts)). apply in_or_app. left. exact Hy. }
  apply in_map_iff in Hin as (g & Hg & Hgi). eauto.
Qed.

(** The counter bytes of an output record that carries a counter tag. *)
Lemma clean_counter_bytes (es out : list Entry) (g : Group) (e : Entry) :
  clean_entries es = inl out -> In g item_counts -> In e out -> tag e = tagid g ->
  firstn 4 (skipn 5 (data e)) = mk_u32_le (Z.of_nat (group_max es g)).
Proof.
  intros H Hg He Ht. unfold clean_entries in H.
  destruct (clean_state es) as [res' gs'] eqn:Hs.
  destruct (clean_state_spec _ _ _ Hs) as [Hk _].
  pose proof (clean_state_ids _ _ _ Hs) as Hids.
  apply mapM_Forall2 in H.
  destruct (Forall2_in_r _ _ _ _ H He) as (e1 & He1 & Hp).
  apply patch_entry_inl in Hp as [Htag Hm].
  destruct (map_eq_in gkey _ gs' item_counts g Hk Hg) as (g' & Hg' & Hkey).
  assert (Hi : tagid g' = tagid g) by exact (f_equal (fun k => snd (fst k)) Hkey).
  assert (Hmx : max g' = group_max es g) by exact (f_equal snd Hkey).
  rewrite <- Hmx.
  apply (patch_fold_value (tag e1) gs' g' (data e1) (data e)).
  - rewrite Hids. exact item_counts_ids_nodup.
  - exact Hg'.
  - rewrite Hi, <- Ht, Htag. reflexivity.
  - exact Hm.
Qed.

Lemma clean_listing_total (es out : list Entry) :
  clean_entries es = inl out -> get_formatted_entries out = inl (map listing_line out).
Proof.
  intros H.
  rewrite formatted_entries_closed.
  replace (forallb _ out) with true; [reflexivity|]. symmetry.
  apply forallb_forall. intros e He.
  destruct (contains counting_tags (tag e)) eqn:Ec; [|reflexivity].
  destruct (counting_tags_ids _ Ec) as (g & Hg & Hgt).
  pose proof (clean_counter_bytes es out g e H Hg He (eq_sym Hgt)) as Hb.
  apply (f_equal (@length Z)) in Hb. rewrite length_firstn, length_skipn in Hb.
  change (length (mk_u32_le (Z.of_nat (group_max es g)))) with 4%nat in Hb.
  cbn [negb orb]. apply Nat.leb_le. lia.
Qed.

(** After a successful [clean_entries], the listing of its output never
    panics, and the line of a record carrying the counter tag of a group of
    [counting_tags] shows the group's maximum (modulo 2^32). *)
Theorem clean_entries_listing (es out : list Entry) :
  clean_entries es = inl out ->
  get_formatted_entries out = inl (map listing_line out) /\
  (forall e g, In e out -> In g item_counts -> tag e = tagid g ->
               contains counting_tags (tag e) = true ->
               listing_line e = format_counter (tag e) (Z.of_nat (group_max es g) mod 2 ^ 32)).
Proof.
  intros H. split; [exact (clean_listing_total es out H)|].
  - intros e g He Hg Ht Hc. unfold listing_line. rewrite Hc.
    rewrite (clean_counter_bytes es out g e H Hg He Ht), le32_value_mk_u32_le. reflexivity.
Qed.

Lemma clean_entries_listing_witness :
  get_formatted_entries pike_output = inl (map listing_line pike_output) /\
  (forall e g, In e pike_output -> In g item_counts -> tag e = tagid g ->
               contains counting_tags (tag e) = true ->
               listing_line e =
                 format_counter (tag e) (Z.of_nat (group_max pike_input g) mod 2 ^ 32)).
Proof. apply clean_entries_listing. vm_compute. reflexivity. Defined.

Lemma push_lines_nonempty (l : list (list Z)) (out : list Z) :
  out <> [] -> fold_left push_line l out = out ++ flat_map (fun s => 10 :: s) l.
Proof.
  revert out; induction l as [|x l IH]; intros out Hout; cbn [fold_left flat_map].
  - rewrite app_nil_r. reflexivity.
  - assert (E : push_line out x = out ++ 10 :: x).
    { unfold push_line. destruct out; [congruence | reflexivity]. }
    rewrite IH, E, <- app_assoc; [reflexivity|].
    rewrite E. destruct out; [congruence | discriminate].
Qed.

Lemma push_lines_empty (k : nat) : fold_left push_line (repeat [] k) [] = [].
Proof. induction k as [|k IH]; [reflexivity | exact IH]. Qed.

(** The text of [save_entries_list] joins the lines with newlines, but
    leading empty lines leave no trace: no separator is written while the
    text is still empty. *)
Theorem entries_list_text_join (k : nat) (x : list Z) (l : list (list Z)) :
  x <> [] ->
  entries_list_text (repeat [] k) = [] /\
  entries_list_text (repeat [] k ++ x :: l) = x ++ flat_map (fun s => 10 :: s) l.
Proof.
  intros Hx. unfold entries_list_text. split; [apply push_lines_empty|].
  rewrite fold_left_app, push_lines_empty. cbn [fold_left].
  apply push_lines_nonempty. unfold push_line. simpl. exact Hx.
Qed.

Lemma entries_list_text_join_witness :
  entries_list_text (repeat [] 2) = [] /\
  entries_list_text (repeat [] 2 ++ [65] :: [[]; [66]]) = [65] ++ flat_map (fun s => 10 :: s) [[]; [66]].
Proof. apply entries_list_text_join. discriminate. Defined.

(** ** Files *)

Lemma fnamep_eqb (i j : nat) :
  (i <= 10)%nat -> (j <= 10)%nat -> list_eqb (fnamep i) (fnamep j) = Nat.eqb i j.
Proof.
  intros Hi Hj.
  assert (C : forallb (fun i => forallb (fun j => Bool.eqb (list_eqb (fnamep i) (fnamep j))
                                                         (Nat.eqb i j)) (seq 0 11)) (seq 0 11)
              = true) by (vm_compute; reflexivity).
  rewrite forallb_forall in C. specialize (C i (proj2 (in_seq 11 0 i) ltac:(lia))).
  rewrite forallb_forall in C. specialize (C j (proj2 (in_seq 11 0 j) ltac:(lia))).
  apply Bool.eqb_prop in C. exact C.
Qed.

Lemma list_eqb_neq (a b : list Z) : a <> b -> list_eqb a b = false.
Proof.
  intros H. destruct (list_eqb a b) eqn:E; [|reflexivity].
  apply list_eqb_eq in E. contradiction.
Qed.

Lemma fixed_names_not_backup (j : nat) :
  (j <= 10)%nat -> items_txt <> fnamep j /\ str "items_list.txt" <> fnamep j.
Proof.
  intros Hj.
  assert (C : forallb (fun j => negb (list_eqb items_txt (fnamep j)) &&
                                negb (list_eqb (str "items_list.txt") (fnamep j))) (seq 0 11)
              = true) by (vm_compute; reflexivity).
  rewrite forallb_forall in C. specialize (C j (proj2 (in_seq 11 0 j) ltac:(lia))).
  apply andb_true_iff in C as [C1 C2]. apply negb_true_iff in C1, C2.
  split; intros E; rewrite E, list_eqb_refl in *; discriminate.
Qed.

Lemma rotate_backups_spec (k : nat) (fs : FS) :
  (k <= 10)%nat -> fs (fnamep k) = None ->
  exists fs', rotate_backups (rev (seq 0 k)) fs = (fs', None) /\
    fs' (fnamep 0) = None /\
    (forall i, (i < k)%nat -> fs' (fnamep (S i)) = fs (fnamep i)) /\
    (forall q, (forall j, (j <= k)%nat -> q <> fnamep j) -> fs' q = fs q).
Proof.
  revert fs; induction k as [|k IH]; intros fs Hk Hn.
  - exists fs. split; [reflexivity|]. split; [exact Hn|].
    split; [intros; lia | reflexivity].
  - rewrite seq_S, rev_app_distr. cbn [rev app rotate_backups]. cbn [Nat.add].
    assert (Ekk : list_eqb (fnamep k) (fnamep (S k)) = false)
      by (rewrite fnamep_eqb by lia; apply Nat.eqb_neq; lia).
    destruct (fs (fnamep k)) as [c|] eqn:Ec.
    + unfold fs_rename. rewrite Ec.
      set (fs1 := fs_set (fs_set fs (fnamep k) None) (fnamep (S k)) (Some c)).
      assert (H1 : fs1 (fnamep k) = None)
        by (unfold fs1, fs_set; rewrite Ekk, list_eqb_refl; reflexivity).
      destruct (IH fs1 ltac:(lia) H1) as (fs' & Hr & H0 & Hsh & Hot).
      exists fs'. split; [exact Hr|]. split; [exact H0|]. split.
      * intros i Hi. destruct (Nat.eq_dec i k) as [->|Hik].
        -- rewrite Hot.
           ++ unfold fs1, fs_set. rewrite list_eqb_refl, Ec. reflexivity.
           ++ intros j Hj E. rewrite <- list_eqb_eq, fnamep_eqb in E by lia.
              apply Nat.eqb_eq in E. lia.
        -- rewrite Hsh by lia. unfold fs1, fs_set.
           rewrite !fnamep_eqb by lia.
           rewrite (proj2 (Nat.eqb_neq i (S k))), (proj2 (Nat.eqb_neq i k)) by lia.
           reflexivity.
      * intros q Hq. rewrite Hot by (intros j Hj; apply Hq; lia).
        unfold fs1, fs_set.
        rewrite (list_eqb_neq q (fnamep (S k))), (list_eqb_neq q (fnamep k))
          by (apply Hq; lia). reflexivity.
    + destruct (IH fs ltac:(lia) Ec) as (fs' & Hr & H0 & Hsh & Hot).
      exists fs'. split; [exact Hr|]. split; [exact H0|]. split.
      * intros i Hi. destruct (Nat.eq_dec i k) as [->|Hik].
        -- rewrite Hot, Hn, Ec; [reflexivity|].
           intros j Hj E. rewrite <- list_eqb_eq, fnamep_eqb in E by lia.
           apply Nat.eqb_eq in E. lia.
        -- apply Hsh. lia.
      * intros q Hq. apply Hot. intros j Hj. apply Hq. lia.
Qed.

Lemma backup_tail (fs fsX : FS) (c : list Z) :
  fs items_txt = Some c -> fsX (fnamep 10) = None ->
  (forall q, q <> fnamep 10 -> fsX q = fs q) ->
  exists fs',
    (let (fs2, st) := rotate_backups (rev (seq 0 10)) fsX in
     match st with
     | Some s => (fs2, Some s)
     | None =>
         match fs_copy fs2 items_txt (str "items00.txt") with
         | Some fs3 => (fs3, None)
         | None => (fs2, Some (IoExit CopyItemsFailed))
         end
     end) = (fs', None) /\ backup_spec fs fs' c.
Proof.
  intros Hc H10 HX.
  destruct (rotate_backups_spec 10 fsX ltac:(lia) H10) as (fs2 & Hr & H0 & Hsh & Hot).
  rewrite Hr.
  assert (Hi2 : fs2 items_txt = Some c).
  { rewrite Hot, HX; [exact Hc | |].
    - apply (fixed_names_not_backup 10). lia.
    - intros j Hj. apply fixed_names_not_backup. exact Hj. }
  unfold fs_copy. rewrite Hi2.
  assert (E00 : str "items00.txt" = fnamep 0) by (vm_compute; reflexivity).
  rewrite E00. eexists. split; [reflexivity|]. unfold backup_spec, fs_set.
  split; [rewrite list_eqb_refl; reflexivity|]. split.
  - intros i Hi. rewrite fnamep_eqb by lia. cbn [Nat.eqb].
    rewrite Hsh, HX by (try lia; intros E; rewrite <- list_eqb_eq, fnamep_eqb in E by lia;
                        apply Nat.eqb_eq in E; lia).
    reflexivity.
  - intros q Hq. rewrite list_eqb_neq by (apply Hq; lia).
    rewrite Hot, HX by (try (apply Hq; lia); intros j Hj; apply Hq; lia). reflexivity.
Qed.

(** [backup_items_file] on a directory that holds [items.txt]. *)
Lemma backup_items_file_spec (fs : FS) (c : list Z) :
  fs items_txt = Some c ->
  exists fs', backup_items_file fs = (fs', None) /\ backup_spec fs fs' c.
Proof.
  intros Hc. unfold backup_items_file. cbv zeta. unfold max_backup_counter.
  destruct (fs (fnamep 10)) eqn:E10.
  - unfold fs_remove_file. rewrite E10. cbn beta iota.
    apply backup_tail; [exact Hc | unfold fs_set; rewrite list_eqb_refl; reflexivity|].
    intros q Hq. unfold fs_set. rewrite list_eqb_neq by exact Hq. reflexivity.
  - cbn beta iota. apply backup_tail; [exact Hc | exact E10 | reflexivity].
Qed.

(** On a directory holding [items.txt], [backup_items_file] does not
    exit; afterwards [items00.txt] holds a copy of [items.txt], each backup
    [items<i>.txt] (i < 10) has moved to [items<i+1>.txt], the former
    [items10.txt] is gone, and every other file is as it was. *)
Theorem backup_items_file_rotates (fs : FS) (c : list Z) :
  fs items_txt = Some c ->
  exists fs', backup_items_file fs = (fs', None) /\
    fs' (fnamep 0) = Some c /\
    (forall i, (i < 10)%nat -> fs' (fnamep (S i)) = fs (fnamep i)) /\
    (forall q, (forall j, (j <= 10)%nat -> q <> fnamep j) -> fs' q = fs q).
Proof. intros H. exact (backup_items_file_spec fs c H). Qed.

Lemma backup_items_file_rotates_witness :
  exists fs', backup_items_file pike_dir = (fs', None) /\
    fs' (fnamep 0) = Some (save_new_items_file pike_input) /\
    (forall i, (i < 10)%nat -> fs' (fnamep (S i)) = pike_dir (fnamep i)) /\
    (forall q, (forall j, (j <= 10)%nat -> q <> fnamep j) -> fs' q = pike_dir q).
Proof. apply backup_items_file_rotates. reflexivity. Defined.

(** ** The program *)

(** When [items.txt] decodes and cleans without failure, [main] runs to
    its end: [items.txt] then holds the encoded cleaned records,
    [items_list.txt] their listing, [items00.txt] the original file, the
    older backups have moved up by one, and no other file has changed. *)
Theorem main_writes_clean_items (fs : FS) (buf : list Z) (es out : list Entry) :
  fs items_txt = Some buf -> generate_entries buf = inl es -> clean_entries es = inl out ->
  exists fs', main fs = (fs', None) /\
    fs' items_txt = Some (save_new_items_file out) /\
    fs' (str "items_list.txt") = Some (entries_list_text (map listing_line out)) /\
    fs' (fnamep 0) = Some buf /\
    (forall i, (i < 10)%nat -> fs' (fnamep (S i)) = fs (fnamep i)) /\
    (forall q, q <> items_txt -> q <> str "items_list.txt" ->
               (forall j, (j <= 10)%nat -> q <> fnamep j) -> fs' q = fs q).
Proof.
  intros Hi Hg Hc. unfold main. rewrite Hi.
  destruct (backup_items_file_spec fs buf Hi) as (fs1 & Hb & B0 & Bsh & Bot).
  rewrite Hb. cbn beta iota. rewrite Hg. cbn beta iota. rewrite Hc. cbn beta iota.
  assert (Hi1 : fs1 items_txt = Some buf)
    by (rewrite Bot; [exact Hi | intros j Hj; apply fixed_names_not_backup; exact Hj]).
  unfold save_new_items_file_io, fs_remove_file. rewrite Hi1. cbn beta iota.
  unfold save_entries_list. rewrite (clean_listing_total es out Hc).
  eexists. split; [reflexivity|].
  assert (Nl : list_eqb items_txt (str "items_list.txt") = false) by reflexivity.
  assert (Nb : forall j, (j <= 10)%nat ->
            list_eqb (fnamep j) (str "items_list.txt") = false /\ list_eqb (fnamep j) items_txt = false).
  { intros j Hj. destruct (fixed_names_not_backup j Hj) as [N1 N2].
    split; apply list_eqb_neq; intros E; [apply N2 | apply N1]; symmetry; exact E. }
  unfold fs_write, fs_set. rewrite Nl, !list_eqb_refl.
  split; [reflexivity|]. split; [reflexivity|].
  split; [destruct (Nb 0%nat ltac:(lia)) as [-> ->]; exact B0|]. split.
  - intros i Hii. destruct (Nb (S i) ltac:(lia)) as [-> ->]. apply Bsh. exact Hii.
  - intros q H1 H2 H3. rewrite !list_eqb_neq by assumption. apply Bot. exact H3.
Qed.

Lemma main_writes_clean_items_witness :
  exists fs', main pike_dir = (fs', None) /\
    fs' items_txt = Some (save_new_items_file pike_output) /\
    fs' (str "items_list.txt") = Some (entries_list_text (map listing_line pike_output)) /\
    fs' (fnamep 0) = Some (save_new_items_file pike_input) /\
    (forall i, (i < 10)%nat -> fs' (fnamep (S i)) = pike_dir (fnamep i)) /\
    (forall q, q <> items_txt -> q <> str "items_list.txt" ->
               (forall j, (j <= 10)%nat -> q <> fnamep j) -> fs' q = pike_dir q).
Proof.
  apply (main_writes_clean_items pike_dir (save_new_items_file pike_input) pike_input pike_output);
    vm_compute; reflexivity.
Defined.

(** When decoding or cleaning fails, [main] stops after the backup:
    [items.txt] is left as it was, [items00.txt] holds a copy of it, and
    only the backups have moved. *)
Theorem main_abort_keeps_items (fs : FS) (buf : list Z) (f : failure) :
  fs items_txt = Some buf ->
  (generate_entries buf = inr f \/
   exists es, generate_entries buf = inl es /\ clean_entries es = inr f) ->
  exists fs', main fs = (fs', Some (Failed f)) /\
    fs' items_txt = Some buf /\ fs' (fnamep 0) = Some buf /\
    (forall i, (i < 10)%nat -> fs' (fnamep (S i)) = fs (fnamep i)) /\
    (forall q, (forall j, (j <= 10)%nat -> q <> fnamep j) -> fs' q = fs q).
Proof.
  intros Hi Hf. unfold main. rewrite Hi.
  destruct (backup_items_file_spec fs buf Hi) as (fs1 & Hb & B0 & Bsh & Bot).
  rewrite Hb. cbn beta iota. exists fs1.
  split; [destruct Hf as [-> | (es & -> & ->)]; reflexivity|].
  split; [rewrite Bot; [exact Hi | intros j Hj; apply fixed_names_not_backup; exact Hj]|].
  auto.
Qed.

Lemma main_abort_keeps_items_witness :
  exists fs', main broken_dir = (fs', Some (Failed IndexOutOfBounds)) /\
    fs' items_txt = Some [126] /\ fs' (fnamep 0) = Some [126] /\
    (forall i, (i < 10)%nat -> fs' (fnamep (S i)) = broken_dir (fnamep i)) /\
    (forall q, (forall j, (j <= 10)%nat -> q <> fnamep j) -> fs' q = broken_dir q).
Proof.
  apply main_abort_keeps_items; [reflexivity | left; vm_compute; reflexivity].
Defined.
